(** * RandSqrt: approximating a square root with random points

    Verification of the point generation and selection routine of the
    RandSqrt page: [generatePoints] of [src/routes/+page.svelte] with the
    input handlers [handlePointsInput] and [handleTargetInput], and the
    single-pass variant of [generatePoints] found in the second source file
    of the repository (module [Unchunked]).

    ECMAScript Numbers are IEEE-754 binary64 values.  They are modelled by
    [spec_float] with [prec = 53] and [emax = 1024], so products, differences,
    comparisons, [Math.floor] and [Math.sqrt] round and propagate NaN as they
    do in the engine.  [Math.random] reads an arbitrary stream of draws.  The
    component's variables are threaded as a record; plotting ([updatePlot])
    and the reactive re-run of the routine touch none of the properties
    proved here and are left out. *)

From Stdlib Require Import ZArith List Lia Bool Arith PeanoNat Permutation Sorted.
From Stdlib Require Import Floats.SpecFloat.
Import ListNotations.
Local Open Scope Z_scope.

(* ================================================================= *)
(** * Part I. Definitions *)
(* ================================================================= *)

(** ** The Number type *)

Definition prec : Z := 53.
Definition emax : Z := 1024.
Definition number : Type := spec_float.

(** A well-formed double: canonical mantissa and exponent in range. *)
Definition is_number (v : number) : bool := valid_binary prec emax v.

Definition is_NaN (v : number) : bool :=
  match v with
  | S754_nan => true
  | _ => false
  end.

(** Conversion of an integer to the nearest Number (exact below 2^53). *)
Definition num_of_Z (z : Z) : number := binary_normalize prec emax z 0 false.
Definition num_of_nat (n : nat) : number := num_of_Z (Z.of_nat n).

Definition js_add : number -> number -> number := SFadd prec emax.
Definition js_sub : number -> number -> number := SFsub prec emax.
Definition js_mul : number -> number -> number := SFmul prec emax.
Definition js_lt : number -> number -> bool := SFltb.
Definition js_le : number -> number -> bool := SFleb.

(** [Math.max], [Math.min] with two arguments: NaN is contagious and +0 is
    larger than -0. *)
Definition Math_max (a b : number) : number :=
  match a, b with
  | S754_nan, _ | _, S754_nan => S754_nan
  | S754_zero sa, S754_zero sb => S754_zero (sa && sb)
  | _, _ => if js_lt a b then b else a
  end.

Definition Math_min (a b : number) : number :=
  match a, b with
  | S754_nan, _ | _, S754_nan => S754_nan
  | S754_zero sa, S754_zero sb => S754_zero (sa || sb)
  | _, _ => if js_lt b a then b else a
  end.

(** The mathematical integer [floor v] of a finite Number. *)
Definition floorZ (v : number) : option Z :=
  match v with
  | S754_zero _ => Some 0
  | S754_finite s m e => Some (Z.shiftl (cond_Zopp s (Zpos m)) e)
  | _ => None
  end.

(** [Math.floor]: a Number with a non-negative exponent is integral already;
    NaN, the infinities and the zeros are returned unchanged. *)
Definition Math_floor (v : number) : number :=
  match v with
  | S754_finite s m e =>
      if 0 <=? e then v else num_of_Z (Z.shiftl (cond_Zopp s (Zpos m)) e)
  | _ => v
  end.

Definition Math_sqrt : number -> number := SFsqrt prec emax.

(** [ToBoolean] on Numbers: NaN and the zeros are falsy. *)
Definition truthy (v : number) : bool :=
  match v with
  | S754_nan | S754_zero _ => false
  | _ => true
  end.

(** [ToLength]: truncate, then clamp to [0, 2^53 - 1]. *)
Definition ToLength (v : number) : nat :=
  match v with
  | S754_infinity false => Z.to_nat (2 ^ 53 - 1)
  | _ => match floorZ v with
         | Some z => Z.to_nat (Z.min z (2 ^ 53 - 1))
         | None => 0%nat
         end
  end.

(** A Number used as a property key of an array names an element only when
    it is an integer below 2^32 - 1; both zeros name index 0. *)
Definition array_index (c : number) : option nat :=
  match c with
  | S754_zero _ => Some 0%nat
  | S754_finite false m e =>
      let z := Z.shiftl (Zpos m) e in
      if (Z.shiftl z (- e) =? Zpos m) && (z <? 2 ^ 32 - 1) then Some (Z.to_nat z) else None
  | _ => None
  end.

(** [l[c]]: [None] stands for [undefined]. *)
Definition array_get {A : Type} (l : list A) (c : number) : option A :=
  match array_index c with
  | Some k => nth_error l k
  | None => None
  end.

(** ** Math.random

    The engine's generator is an arbitrary stream of Numbers; a computation
    reads the stream from a position and returns the next position. *)

Definition entropy : Type := nat -> number.
Definition Rand (A : Type) : Type := entropy -> nat -> A * nat.

Definition ret {A : Type} (a : A) : Rand A := fun _ k => (a, k).

Definition bind {A B : Type} (c : Rand A) (f : A -> Rand B) : Rand B :=
  fun d k => let (a, k') := c d k in f a d k'.

Notation "x <- c ;; f" := (bind c (fun x => f))
  (at level 61, c at next level, right associativity).

Definition Math_random : Rand number := fun d k => (d k, S k).

(** What [Math.random] may return: a Number with positive sign, at least 0
    and less than 1. *)
Definition random_value (v : number) : bool :=
  match v with
  | S754_zero false => true
  | S754_finite false m e => bounded prec emax m e && js_lt v (num_of_Z 1)
  | _ => false
  end.

Definition uniform (d : entropy) : Prop := forall k, random_value (d k) = true.

(** ** Arrays *)

(** [Array.from({ length: len }, mapFn)]: [mapFn] is called once per index,
    in increasing order. *)
Fixpoint Array_from {A : Type} (len : nat) (mapFn : Rand A) : Rand (list A) :=
  match len with
  | O => ret []
  | S len' => a <- mapFn ;; rest <- Array_from len' mapFn ;; ret (a :: rest)
  end.

(** [Array.prototype.sort(comparefn)] is stable, and with a consistent
    comparator its result is determined: the stable insertion sort that puts
    [a] behind [b] exactly when [comparefn(a, b) > 0]. *)
Fixpoint insert {A : Type} (comparefn : A -> A -> number) (a : A) (l : list A) : list A :=
  match l with
  | [] => [a]
  | b :: l' =>
      if js_lt (S754_zero false) (comparefn a b) then b :: insert comparefn a l'
      else a :: l
  end.

Definition Array_sort {A : Type} (comparefn : A -> A -> number) (l : list A) : list A :=
  fold_right (insert comparefn) [] l.

(** [Array.prototype.map((p, i) => ...)], the callback receiving the index. *)
Fixpoint map_from {A B : Type} (f : A -> nat -> B) (i : nat) (l : list A) : list B :=
  match l with
  | [] => []
  | a :: l' => f a i :: map_from f (S i) l'
  end.

Definition Array_map {A B : Type} (f : A -> nat -> B) (l : list A) : list B :=
  map_from f 0%nat l.

(** ** The data model *)

(** The object literal [{ x, y, max }] built for every sample. *)
Module Raw.
Record t : Type := mk { x : number; y : number; max : number }.
End Raw.

(** An element of [points]: [{ x, y, max, selected }]. *)
Module Point.
Record t : Type := mk { x : number; y : number; max : number; selected : bool }.
End Point.

(** The component's variables. *)
Record Component : Type := mkComponent {
  targetValue : number;
  numPoints : number;
  points : list Point.t;
  approximatedSqrt : number;
  actualSqrt : number;
  tempTargetValue : number;
  tempNumPoints : number
}.

(** ** generatePoints ([src/routes/+page.svelte], lines 37-69) *)

(** [const chunkSize = 1000;] *)
Definition chunkSize : number := num_of_Z 1000.

(** The callback of [Array.from] (lines 43-51): two draws, [x] first, and
    their maximum. *)
Definition newPoint : Rand Raw.t :=
  x <- Math_random ;;
  y <- Math_random ;;
  ret (Raw.mk x y (Math_max x y)).

(** [for (let i = 0; i < numPoints; i += chunkSize) { const chunk =
    Array.from({ length: Math.min(chunkSize, numPoints - i) }, ...);
    newPoints.push(...chunk); }] (lines 42-53).  The loop counter is a
    Number; [fuel] bounds the number of iterations and [None] reports that it
    ran out. *)
Fixpoint generate_chunks (fuel : nat) (numPoints i : number) (newPoints : list Raw.t)
  : Rand (option (list Raw.t)) :=
  if js_lt i numPoints then
    match fuel with
    | O => ret None
    | S fuel' =>
        chunk <- Array_from (ToLength (Math_min chunkSize (js_sub numPoints i))) newPoint ;;
        generate_chunks fuel' numPoints (js_add i chunkSize) (newPoints ++ chunk)
    end
  else ret (Some newPoints).

(** The comparator of line 56: [(a, b) => a.max - b.max]. *)
Definition by_max (a b : Raw.t) : number := js_sub (Raw.max a) (Raw.max b).

(** Line 59: [Math.floor(newPoints.length * targetValue)]. *)
Definition cutoffIndex (length : nat) (targetValue : number) : number :=
  Math_floor (js_mul (num_of_nat length) targetValue).

(** Lines 60-63: [(p, i) => ({ ...p, selected: i <= cutoffIndex })]. *)
Definition select (cutoff : number) (p : Raw.t) (i : nat) : Point.t :=
  Point.mk (Raw.x p) (Raw.y p) (Raw.max p) (js_le (num_of_nat i) cutoff).

(** Line 65: [points[cutoffIndex]?.max || 0]. *)
Definition max_at_or_zero (points : list Point.t) (cutoff : number) : number :=
  match array_get points cutoff with
  | Some p => if truthy (Point.max p) then Point.max p else S754_zero false
  | None => S754_zero false
  end.

(** Lines 55-66, everything after the generation loop: sort, cut off, mark,
    read the estimate, recompute [actualSqrt]. *)
Definition threshold (st : Component) (newPoints : list Raw.t) : Component :=
  let sorted := Array_sort by_max newPoints in
  let cutoff := cutoffIndex (length sorted) (targetValue st) in
  let points' := Array_map (select cutoff) sorted in
  mkComponent (targetValue st) (numPoints st) points'
              (max_at_or_zero points' cutoff) (Math_sqrt (targetValue st))
              (tempTargetValue st) (tempNumPoints st).

Definition generatePoints (fuel : nat) (st : Component) : Rand (option Component) :=
  r <- generate_chunks fuel (numPoints st) (S754_zero false) [] ;;
  ret (option_map (threshold st) r).

(** ** The input handlers (lines 25-35) *)

(** [numPoints = Math.max(100, Math.min(10000, tempNumPoints));
     tempNumPoints = numPoints;] *)
Definition clampPoints (st : Component) : Component :=
  let n := Math_max (num_of_Z 100) (Math_min (num_of_Z 10000) (tempNumPoints st)) in
  mkComponent (targetValue st) n (points st) (approximatedSqrt st) (actualSqrt st)
              (tempTargetValue st) n.

Definition handlePointsInput (fuel : nat) (st : Component) : Rand (option Component) :=
  generatePoints fuel (clampPoints st).

(** [targetValue = Math.max(0, Math.min(1, tempTargetValue));
     tempTargetValue = targetValue;] *)
Definition clampTarget (st : Component) : Component :=
  let t := Math_max (num_of_Z 0) (Math_min (num_of_Z 1) (tempTargetValue st)) in
  mkComponent t (numPoints st) (points st) (approximatedSqrt st) (actualSqrt st)
              t (tempNumPoints st).

Definition handleTargetInput (fuel : nat) (st : Component) : Rand (option Component) :=
  generatePoints fuel (clampTarget st).

(** ** Generation in a single pass

    The same routine with the chunked loop replaced by one
    [Array.from({ length: numPoints }, ...)]. *)
Definition generatePoints_single_pass (st : Component) : Rand Component :=
  newPoints <- Array_from (ToLength (numPoints st)) newPoint ;;
  ret (threshold st newPoints).

(** ** The variant of the routine in the second source file (lines 12-37)

    One [Array.from({ length: numPoints }, ...)] builds the points with
    [selected: false]; the cut-off is
    [Math.floor(points.length * Math.sqrt(targetValue))]. *)
Module Unchunked.

Record Component : Type := mkComponent {
  targetValue : number;
  numPoints : number;
  points : list Point.t;
  approximatedSqrt : number;
  actualSqrt : number
}.

Definition newPoint : Rand Point.t :=
  x <- Math_random ;;
  y <- Math_random ;;
  ret (Point.mk x y (Math_max x y) false).

Definition by_max (a b : Point.t) : number := js_sub (Point.max a) (Point.max b).

(** [Math.floor(points.length * Math.sqrt(targetValue))]. *)
Definition cutoffIndex (length : nat) (targetValue : number) : number :=
  Math_floor (js_mul (num_of_nat length) (Math_sqrt targetValue)).

Definition select (cutoff : number) (p : Point.t) (i : nat) : Point.t :=
  Point.mk (Point.x p) (Point.y p) (Point.max p) (js_le (num_of_nat i) cutoff).

Definition generatePoints (st : Component) : Rand Component :=
  generated <- Array_from (ToLength (numPoints st)) newPoint ;;
  let sorted := Array_sort by_max generated in
  let cutoff := cutoffIndex (length sorted) (targetValue st) in
  let points' := Array_map (select cutoff) sorted in
  ret (mkComponent (targetValue st) (numPoints st) points'
                   (max_at_or_zero points' cutoff) (Math_sqrt (targetValue st))).

End Unchunked.

(** ** Notions used to state the properties *)

(** Number of selected points. *)
Definition selected_count (l : list Point.t) : nat :=
  length (filter Point.selected l).

(** [floor(numPoints * targetValue) + 1] clamped to [0, numPoints]. *)
Definition clamp_count (floor_nt : Z) (n : nat) : nat :=
  Z.to_nat (Z.max 0 (Z.min (Z.of_nat n) (floor_nt + 1))).

(** The clamped input domain: [numPoints] an integer of [100, 10000] and
    [targetValue] a (well-formed) Number of [0, 1]. *)
Definition clamped (st : Component) (n : nat) : Prop :=
  numPoints st = num_of_nat n /\ 100 <= Z.of_nat n <= 10000 /\
  is_number (targetValue st) = true /\
  js_le (num_of_Z 0) (targetValue st) = true /\
  js_le (targetValue st) (num_of_Z 1) = true.

(** The samples read from the stream [d] at position [k]. *)
Definition sample_at (d : entropy) (k : nat) : Raw.t :=
  Raw.mk (d k) (d (S k)) (Math_max (d k) (d (S k))).

Definition samples (d : entropy) (k n : nat) : list Raw.t :=
  map (fun j => sample_at d (k + 2 * j)%nat) (seq 0 n).

(** Every sample has coordinates drawn by [Math.random] and carries their
    maximum. *)
Definition well_formed_sample (r : Raw.t) : Prop :=
  random_value (Raw.x r) = true /\ random_value (Raw.y r) = true /\
  Raw.max r = Math_max (Raw.x r) (Raw.y r).

(** The object literal of the single-pass variant: the sample with
    [selected: false]. *)
Definition unselected (r : Raw.t) : Point.t :=
  Point.mk (Raw.x r) (Raw.y r) (Raw.max r) false.

(** The coordinates and maximum of a point, without its flag. *)
Definition coordinates (p : Point.t) : Raw.t :=
  Raw.mk (Point.x p) (Point.y p) (Point.max p).

(** ** Auxiliary notions of the proofs about rounding *)

Definition pack (sx : bool) (z e : Z) : number :=
  match z with
  | Z0 => S754_zero sx
  | Zpos m => if e <=? emax - prec then S754_finite sx m e else S754_infinity sx
  | Zneg _ => S754_nan
  end.

(** The number of bits by which [shr_fexp] shifts a mantissa to the right. *)
Definition shift_of (m e : Z) : Z :=
  Z.max 0 (fexp prec emax (Zdigits2 m + e) - e).

Definition signed_like (sx : bool) (v : number) : Prop :=
  match v with
  | S754_finite s _ _ | S754_infinity s => s = sx
  | _ => False
  end.

(** Canonical representation of a non-zero integer of at most 53 bits. *)
Definition int_float (sx : bool) (z : Z) : number :=
  S754_finite sx (Z.to_pos (z * 2 ^ (53 - Zdigits2 z))) (Zdigits2 z - 53).

(** Zeros and positive well-formed Numbers, ordered by [key]. *)
Definition nonneg_number (v : number) : bool :=
  match v with
  | S754_zero _ => true
  | S754_finite false m e => bounded prec emax m e
  | _ => false
  end.

Definition key (v : number) : Z :=
  match v with
  | S754_finite false m e => Zpos m * 2 ^ (e + 1074)
  | _ => 0
  end.

(** [c] is the Number of the integer [z] (or the negative zero). *)
Definition int_valued (c : number) (z : Z) : Prop :=
  c = num_of_Z z \/ (z = 0 /\ c = S754_zero true).

(** ** A stream of draws and a component state used in the examples *)

Definition demo_table : list number :=
  [ S754_finite false 6755399441055744 (-53) (* 0.75 *);
    S754_finite false 4503599627370496 (-54) (* 0.25 *);
    S754_zero false;
    S754_finite false 4503599627370496 (-53) (* 0.5 *);
    S754_finite false 9007199254740991 (-53) (* 1 - 2^-53 *);
    S754_finite false 7205759403792794 (-56) (* 0.1 *);
    S754_finite false 5404319552844595 (-54) (* 0.3 *);
    S754_finite false 1 (-1074) (* smallest positive *) ].

Definition demo_draws : entropy :=
  fun k => nth (Nat.modulo (k * 5) 8) demo_table (S754_zero false).

Definition one_half : number := S754_finite false 4503599627370496 (-53).
Definition one_quarter : number := S754_finite false 4503599627370496 (-54).

(** The state the page starts in: [targetValue = 0.5], [numPoints = 1000]. *)
Definition initial : Component :=
  mkComponent one_half (num_of_Z 1000) [] (S754_zero false) (Math_sqrt one_half)
              one_half (num_of_Z 1000).

(** A state whose pending inputs lie outside the ranges: 5 and 50. *)
Definition out_of_range : Component :=
  mkComponent one_half (num_of_Z 1000) [] (S754_zero false) (Math_sqrt one_half)
              (num_of_Z 5) (num_of_Z 50).

Definition unchunked_quarter : Unchunked.Component :=
  Unchunked.mkComponent one_quarter (num_of_Z 100) [] (S754_zero false) (Math_sqrt one_quarter).

Definition with_inputs (t : number) (n : nat) : Component :=
  mkComponent t (num_of_nat n) [] (S754_zero false) (Math_sqrt t) t (num_of_nat n).

(** ** The rest of the page *)

Definition js_div : number -> number -> number := SFdiv prec emax.

(** What [Math.max(lo, Math.min(hi, v))] amounts to, by comparisons alone:
    NaN stays NaN, a value below [lo] becomes [lo], a value above [hi]
    becomes [hi], a zero becomes +0 and any other value is kept. *)
Definition saturate (lo hi v : number) : number :=
  if is_NaN v then S754_nan
  else if js_lt v lo then lo
  else if js_lt hi v then hi
  else match v with
       | S754_zero _ => S754_zero false
       | _ => v
       end.

(** [clamp(m, 100, 10000)] on integers. *)
Definition clamp_points (m : nat) : nat :=
  Z.to_nat (Z.max 100 (Z.min 10000 (Z.of_nat m))).

(** The reactive statement (lines 173-178):
    [$: { actualSqrt = Math.sqrt(targetValue);
          if (points.length > 0) { generatePoints(); } }]. *)
Definition refresh_actualSqrt (st : Component) : Component :=
  mkComponent (targetValue st) (numPoints st) (points st) (approximatedSqrt st)
              (Math_sqrt (targetValue st)) (tempTargetValue st) (tempNumPoints st).

Definition reactive (fuel : nat) (st : Component) : Rand (option Component) :=
  let st1 := refresh_actualSqrt st in
  if js_lt (num_of_Z 0) (num_of_nat (length (points st1))) then generatePoints fuel st1
  else ret (Some st1).

(** The data of the cumulative plot, [updatePlot] lines 117-123:
    [points.map((p) => p.max).sort((a, b) => a - b)
           .map((max, index) => ({ x: max, y: (index + 1) / points.length }))]. *)
Module Cdf.
Record t : Type := mk { x : number; y : number }.
End Cdf.

Definition ascending (a b : number) : number := js_sub a b.

Definition cdf_entry (length : nat) (max : number) (index : nat) : Cdf.t :=
  Cdf.mk max (js_div (js_add (num_of_nat index) (num_of_Z 1)) (num_of_nat length)).

Definition cdfPoints (points : list Point.t) : list Cdf.t :=
  Array_map (cdf_entry (length points)) (Array_sort ascending (map Point.max points)).

(** The shaded part of the plot, line 138:
    [cdfPoints.filter((p) => p.x <= approximatedSqrt)]. *)
Definition shaded (st : Component) : list Cdf.t :=
  filter (fun p => js_le (Cdf.x p) (approximatedSqrt st)) (cdfPoints (points st)).


(** A state whose [numPoints] is not a number. *)
Definition nan_points : Component :=
  mkComponent one_half S754_nan [] (S754_zero false) (Math_sqrt one_half)
              one_half S754_nan.

(** A state of the page after a render: [points] is not empty. *)
Definition populated (t : number) (n : nat) : Component :=
  mkComponent t (num_of_nat n) [Point.mk one_quarter one_half one_half true] one_half
              (Math_sqrt t) t (num_of_nat n).
(* ================================================================= *)
(** * Part II. Facts about binary64 rounding *)
(* ================================================================= *)

Lemma fexp_unfold x : fexp prec emax x = Z.max (x - 53) (-1074).
Proof. reflexivity. Qed.

Lemma digits2_size p : digits2_pos p = Pos.size p.
Proof. induction p; simpl; congruence. Qed.

Lemma Zdigits2_log2 m : 0 < m -> Zdigits2 m = Z.log2 m + 1.
Proof.
  destruct m as [|p|p]; try lia. intros _.
  destruct p; cbn [Zdigits2 digits2_pos Z.log2]; rewrite ?digits2_size; lia.
Qed.

Lemma Zdigits2_bounds m : 0 < m -> 2 ^ (Zdigits2 m - 1) <= m < 2 ^ Zdigits2 m.
Proof.
  intros H. rewrite Zdigits2_log2 by assumption.
  replace (Z.log2 m + 1 - 1) with (Z.log2 m) by lia.
  replace (Z.log2 m + 1) with (Z.succ (Z.log2 m)) by lia.
  apply Z.log2_spec; assumption.
Qed.

Lemma Zdigits2_nonneg m : 0 <= m -> 0 <= Zdigits2 m.
Proof. destruct m; simpl; lia. Qed.

Lemma Zdigits2_pos m : 0 < m -> 0 < Zdigits2 m.
Proof. destruct m; simpl; lia. Qed.

Lemma Zdigits2_le m k : 0 <= m -> 0 <= k -> m < 2 ^ k -> Zdigits2 m <= k.
Proof.
  intros Hm Hk H. destruct (Z.eq_dec m 0) as [->|Hn]; [simpl; lia|].
  rewrite Zdigits2_log2 by lia.
  assert (Z.log2 m < k) by (apply Z.log2_lt_pow2; lia). lia.
Qed.

Lemma Zdigits2_shiftr m k :
  0 < m -> 0 <= k -> Zdigits2 (Z.shiftr m k) = Z.max 0 (Zdigits2 m - k).
Proof.
  intros Hm Hk.
  destruct (Z_lt_le_dec (Z.log2 m) k) as [Hlt|Hle].
  - rewrite Z.shiftr_eq_0 by lia. rewrite (Zdigits2_log2 m) by lia.
    change (Zdigits2 0) with 0. lia.
  - assert (0 < Z.shiftr m k).
    { assert (Z.shiftr m k <> 0).
      { intros E. apply Z.shiftr_eq_0_iff in E. lia. }
      pose proof (Z.shiftr_nonneg m k). lia. }
    rewrite !Zdigits2_log2 by lia. rewrite Z.log2_shiftr by lia. lia.
Qed.

Lemma iter_pos_iter {A} (f : A -> A) p x : iter_pos f p x = Pos.iter f x p.
Proof.
  revert x; induction p; intros x; simpl; auto.
  - rewrite !IHp, !Pos.iter_swap. reflexivity.
  - rewrite !IHp. reflexivity.
Qed.

Lemma shr_1_m mrs : 0 <= shr_m mrs ->
  0 <= shr_m (shr_1 mrs) /\ shr_m (shr_1 mrs) = Z.div2 (shr_m mrs).
Proof.
  destruct mrs as [m r s]; simpl. intros H.
  destruct m as [|[p|p|]|p]; simpl; try lia.
Qed.

Lemma shr_m_iter p mrs : 0 <= shr_m mrs ->
  0 <= shr_m (Pos.iter shr_1 mrs p) /\
  shr_m (Pos.iter shr_1 mrs p) = Z.shiftr (shr_m mrs) (Zpos p).
Proof.
  intros H. change (Z.shiftr (shr_m mrs) (Zpos p)) with (Pos.iter Z.div2 (shr_m mrs) p).
  induction p using Pos.peano_ind.
  - simpl. apply shr_1_m; assumption.
  - rewrite !Pos.iter_succ. destruct IHp as [H1 H2].
    destruct (shr_1_m _ H1) as [H3 H4]. split; [assumption|]. rewrite H4, H2. reflexivity.
Qed.

Lemma shr_exact p : forall m, 0 <= m -> m mod 2 ^ Zpos p = 0 ->
  Pos.iter shr_1 (Build_shr_record m false false) p =
  Build_shr_record (Z.shiftr m (Zpos p)) false false.
Proof.
  induction p using Pos.peano_ind; intros m Hm Hmod.
  - simpl Pos.iter. change (2 ^ 1) with 2 in Hmod.
    destruct m as [|[q|q|]|q]; try lia; try reflexivity.
    + exfalso. rewrite Pos2Z.inj_xI in Hmod.
      rewrite Z.add_comm, Z.mul_comm, Z.mod_add in Hmod by lia. discriminate.
    + discriminate.
  - rewrite Pos.iter_succ_r.
    assert (Hdiv : exists c, m = 2 ^ Zpos (Pos.succ p) * c).
    { apply Z.mod_divide in Hmod; [|apply Z.pow_nonzero; lia].
      destruct Hmod as [c Hc]. exists c. lia. }
    destruct Hdiv as [c Hc].
    rewrite Pos2Z.inj_succ, Z.pow_succ_r in Hc by lia.
    assert (Hs1 : shr_1 (Build_shr_record m false false) =
                  Build_shr_record (Z.shiftr m 1) false false).
    { pose proof (Z.pow_pos_nonneg 2 (Zpos p)).
      destruct m as [|[q|q|]|q]; try lia; try reflexivity. }
    rewrite Hs1. rewrite IHp.
    + rewrite Z.shiftr_shiftr by lia. rewrite Pos2Z.inj_succ. f_equal. f_equal. lia.
    + apply Z.shiftr_nonneg; assumption.
    + rewrite Z.shiftr_div_pow2 by lia. change (2 ^ 1) with 2.
      replace m with ((2 ^ Zpos p * c) * 2) by lia.
      rewrite Z.div_mul by lia. rewrite Z.mul_comm. apply Z.mod_mul.
      apply Z.pow_nonzero; lia.
Qed.

Lemma shr_record_of_loc_m m l : shr_m (shr_record_of_loc m l) = m.
Proof. destruct l as [|[]]; reflexivity. Qed.

Lemma round_nearest_even_bounds m l :
  m <= round_nearest_even m l <= m + 1.
Proof. destruct l as [|[]]; simpl; try destruct (Z.even m); lia. Qed.

Lemma shift_of_eq m e :
  shift_of m e = Z.max 0 (Z.max (Zdigits2 m + e - 53) (-1074) - e).
Proof. reflexivity. Qed.

Lemma shr_fexp_spec m e l : 0 <= m ->
  exists mrs, shr_fexp prec emax m e l = (mrs, e + shift_of m e) /\
              shr_m mrs = Z.shiftr m (shift_of m e) /\
              (l = loc_Exact -> m mod 2 ^ shift_of m e = 0 ->
               loc_of_shr_record mrs = loc_Exact).
Proof.
  intros Hm. unfold shr_fexp, shr, shift_of.
  destruct (fexp prec emax (Zdigits2 m + e) - e) as [|p|p] eqn:Hk.
  - exists (shr_record_of_loc m l). rewrite Z.max_id, Z.add_0_r, Z.shiftr_0_r.
    repeat split; auto using shr_record_of_loc_m. intros ->. reflexivity.
  - exists (iter_pos shr_1 p (shr_record_of_loc m l)).
    rewrite Z.max_r by lia. rewrite iter_pos_iter. repeat split.
    + pose proof (shr_m_iter p (shr_record_of_loc m l)) as H.
      rewrite shr_record_of_loc_m in H. apply H; assumption.
    + intros -> Hmod. cbn [shr_record_of_loc]. rewrite shr_exact by assumption.
      reflexivity.
  - exists (shr_record_of_loc m l). rewrite Z.max_l by lia. rewrite Z.add_0_r, Z.shiftr_0_r.
    repeat split; auto using shr_record_of_loc_m. intros ->. reflexivity.
Qed.

(** Shape of the result of rounding an exact product or sum. *)
Lemma binary_round_aux_spec sx m e :
  let K := shift_of (Zpos m) e in
  exists m2,
    Z.shiftr (Zpos m) K <= m2 <= Z.shiftr (Zpos m) K + 1 /\
    (Zpos m mod 2 ^ K = 0 -> m2 = Z.shiftr (Zpos m) K) /\
    binary_round_aux prec emax sx (Zpos m) e loc_Exact =
      pack sx (Z.shiftr m2 (shift_of m2 (e + K))) (e + K + shift_of m2 (e + K)).
Proof.
  intros K. unfold binary_round_aux.
  destruct (shr_fexp_spec (Zpos m) e loc_Exact) as (mrs & E1 & Hm1 & Hex1); [lia|].
  fold K in E1, Hm1, Hex1. rewrite E1.
  set (m2 := round_nearest_even (shr_m mrs) (loc_of_shr_record mrs)).
  assert (Hb : shr_m mrs <= m2 <= shr_m mrs + 1) by apply round_nearest_even_bounds.
  assert (H0 : 0 <= Z.shiftr (Zpos m) K) by (apply Z.shiftr_nonneg; lia).
  destruct (shr_fexp_spec m2 (e + K) loc_Exact) as (mrs2 & E2 & Hm2 & _); [lia|].
  rewrite E2. exists m2. rewrite <- Hm1. repeat split; try lia.
  - intros Hmod. unfold m2. rewrite Hex1 by auto. reflexivity.
  - rewrite Hm2. unfold pack. reflexivity.
Qed.

Lemma Zdigits2_mul_pow2 z k : 0 < z -> 0 <= k -> Zdigits2 (z * 2 ^ k) = Zdigits2 z + k.
Proof.
  intros Hz Hk. assert (0 < 2 ^ k) by (apply Z.pow_pos_nonneg; lia).
  rewrite !Zdigits2_log2 by nia. rewrite Z.log2_mul_pow2 by lia. lia.
Qed.

Lemma iter_xO_pow2 m d : Zpos (Pos.iter xO m d) = Zpos m * 2 ^ Zpos d.
Proof.
  induction d using Pos.peano_ind.
  - simpl. lia.
  - rewrite Pos.iter_succ, Pos2Z.inj_xO, IHd, Pos2Z.inj_succ, Z.pow_succ_r by lia. lia.
Qed.

(** [binary_round] first aligns the mantissa to the left, then rounds. *)
Lemma binary_round_unfold sx m e :
  exists m' e', binary_round prec emax sx m e =
                  binary_round_aux prec emax sx (Zpos m') e' loc_Exact /\
                Z.min e (fexp prec emax (Zdigits2 (Zpos m) + e)) = e' /\
                Zpos m' = Zpos m * 2 ^ (e - e').
Proof.
  unfold binary_round, shl_align. cbn [Zdigits2].
  set (E := fexp prec emax (Zpos (digits2_pos m) + e)).
  destruct (E - e) as [|p|p] eqn:Hd.
  - exists m, e. repeat split; try lia. rewrite Z.sub_diag. lia.
  - exists m, e. repeat split; try lia. rewrite Z.sub_diag. lia.
  - exists (Pos.iter xO m p), E. repeat split; try lia.
    rewrite iter_xO_pow2. f_equal. f_equal. lia.
Qed.

Lemma pack_signed sx z e : 0 < z -> signed_like sx (pack sx z e).
Proof. destruct z; try lia. intros _. simpl. destruct (_ <=? _); reflexivity. Qed.

Lemma binary_round_aux_pos sx m e :
  -1074 <= e -> signed_like sx (binary_round_aux prec emax sx (Zpos m) e loc_Exact).
Proof.
  intros He. destruct (binary_round_aux_spec sx m e) as (m2 & Hb & _ & ->).
  set (K := shift_of (Zpos m) e) in *.
  pose proof (Zdigits2_pos (Zpos m) ltac:(lia)) as Hd.
  assert (HK : 0 <= K < Zdigits2 (Zpos m)).
  { unfold K. rewrite shift_of_eq. lia. }
  assert (H1 : 0 < Z.shiftr (Zpos m) K).
  { pose proof (Zdigits2_shiftr (Zpos m) K ltac:(lia) ltac:(lia)) as Hs.
    assert (0 <= Z.shiftr (Zpos m) K) by (apply Z.shiftr_nonneg; lia).
    destruct (Z.eq_dec (Z.shiftr (Zpos m) K) 0) as [E|]; [|lia].
    rewrite E in Hs. change (Zdigits2 0) with 0 in Hs. lia. }
  apply pack_signed.
  pose proof (Zdigits2_pos m2 ltac:(lia)) as Hd2.
  set (K2 := shift_of m2 (e + K)).
  assert (HK2 : 0 <= K2 < Zdigits2 m2).
  { unfold K2. rewrite shift_of_eq. lia. }
  pose proof (Zdigits2_shiftr m2 K2 ltac:(lia) ltac:(lia)) as Hs.
  assert (0 <= Z.shiftr m2 K2) by (apply Z.shiftr_nonneg; lia).
  destruct (Z.eq_dec (Z.shiftr m2 K2) 0) as [E|]; [|lia].
  rewrite E in Hs. change (Zdigits2 0) with 0 in Hs. lia.
Qed.

Lemma binary_round_pos sx m e :
  -1074 <= e -> signed_like sx (binary_round prec emax sx m e).
Proof.
  intros He. destruct (binary_round_unfold sx m e) as (m' & e' & -> & He' & _).
  apply binary_round_aux_pos. rewrite fexp_unfold in He'. lia.
Qed.

Lemma binary_round_aux_sign sx m e :
  match binary_round_aux prec emax sx (Zpos m) e loc_Exact with
  | S754_finite s _ _ | S754_infinity s | S754_zero s => s = sx
  | S754_nan => True
  end.
Proof.
  destruct (binary_round_aux_spec sx m e) as (m2 & _ & _ & ->).
  unfold pack. destruct (Z.shiftr _ _); auto. destruct (_ <=? _); auto.
Qed.

Lemma binary_round_sign sx m e :
  match binary_round prec emax sx m e with
  | S754_finite s _ _ | S754_infinity s | S754_zero s => s = sx
  | S754_nan => True
  end.
Proof.
  destruct (binary_round_unfold sx m e) as (m' & e' & -> & _ & _).
  apply binary_round_aux_sign.
Qed.

Lemma binary_round_aux_int sx m e z :
  0 < z -> Zdigits2 z <= 53 -> e <= Zdigits2 z - 53 -> Zpos m = z * 2 ^ (- e) ->
  binary_round_aux prec emax sx (Zpos m) e loc_Exact = int_float sx z.
Proof.
  intros Hz Hdz He Hm.
  pose proof (Zdigits2_pos z Hz) as Hdp.
  destruct (binary_round_aux_spec sx m e) as (m2 & _ & Hex & ->).
  set (K := shift_of (Zpos m) e) in *.
  assert (Hd : Zdigits2 (Zpos m) = Zdigits2 z - e).
  { rewrite Hm, Zdigits2_mul_pow2 by lia. lia. }
  assert (HK : K = Zdigits2 z - 53 - e).
  { unfold K. rewrite shift_of_eq, Hd. lia. }
  assert (Hsh : Z.shiftr (Zpos m) K = z * 2 ^ (53 - Zdigits2 z)).
  { rewrite Z.shiftr_div_pow2 by lia. rewrite Hm.
    replace (- e) with ((53 - Zdigits2 z) + K) by lia.
    rewrite Z.pow_add_r by lia. rewrite Z.mul_assoc.
    apply Z.div_mul. apply Z.pow_nonzero; lia. }
  assert (Hm2 : m2 = z * 2 ^ (53 - Zdigits2 z)).
  { rewrite <- Hsh. apply Hex. rewrite Hm.
    replace (- e) with ((53 - Zdigits2 z) + K) by lia.
    rewrite Z.pow_add_r by lia. rewrite Z.mul_assoc. apply Z.mod_mul.
    apply Z.pow_nonzero; lia. }
  assert (Hd2 : Zdigits2 m2 = 53).
  { rewrite Hm2, Zdigits2_mul_pow2 by lia. lia. }
  assert (HK2 : shift_of m2 (e + K) = 0).
  { rewrite shift_of_eq, Hd2. lia. }
  rewrite HK2, Z.shiftr_0_r, Z.add_0_r.
  assert (0 < m2). { rewrite Hm2. apply Z.mul_pos_pos; [lia|]. apply Z.pow_pos_nonneg; lia. }
  unfold pack, int_float. destruct m2 as [|q|q] eqn:Eq; try lia.
  replace (e + K <=? emax - prec) with true
    by (symmetry; apply Z.leb_le; unfold emax, prec; lia).
  rewrite <- Hm2. simpl Z.to_pos. f_equal. lia.
Qed.

Lemma binary_round_int sx m e z :
  0 < z -> Zdigits2 z <= 53 -> e <= 0 -> Zpos m = z * 2 ^ (- e) ->
  binary_round prec emax sx m e = int_float sx z.
Proof.
  intros Hz Hdz He Hm.
  pose proof (Zdigits2_pos z Hz) as Hdp.
  destruct (binary_round_unfold sx m e) as (m' & e' & -> & He' & Hm').
  assert (Hd : Zdigits2 (Zpos m) = Zdigits2 z - e).
  { rewrite Hm, Zdigits2_mul_pow2 by lia. lia. }
  rewrite fexp_unfold, Hd in He'.
  apply binary_round_aux_int; try lia.
  rewrite Hm', Hm, <- Z.mul_assoc, <- Z.pow_add_r by lia. f_equal. f_equal. lia.
Qed.


Lemma bounded_inv m e : bounded prec emax m e = true ->
  -1074 <= e <= 971 /\ Zdigits2 (Zpos m) <= 53 /\ (Zdigits2 (Zpos m) = 53 \/ e = -1074).
Proof.
  unfold bounded, canonical_mantissa. rewrite andb_true_iff, Z.eqb_eq, Z.leb_le.
  rewrite fexp_unfold. cbn [Zdigits2]. unfold emax, prec. lia.
Qed.

Lemma key_pos m e : 0 < key (S754_finite false m e) \/ e + 1074 < 0.
Proof.
  destruct (Z_lt_le_dec (e + 1074) 0); [right; assumption|left].
  cbn [key]. apply Z.mul_pos_pos; [lia|apply Z.pow_pos_nonneg; lia].
Qed.

Lemma key_lt_of_exp_lt ma ea mb eb :
  bounded prec emax ma ea = true -> bounded prec emax mb eb = true -> ea < eb ->
  key (S754_finite false ma ea) < key (S754_finite false mb eb).
Proof.
  intros Ha Hb Hlt. apply bounded_inv in Ha, Hb.
  destruct Ha as (Hea & Hda & _), Hb as (Heb & Hdb & Hn).
  assert (Hdb53 : Zdigits2 (Zpos mb) = 53) by lia.
  pose proof (Zdigits2_bounds (Zpos ma) ltac:(lia)) as [_ Hma].
  pose proof (Zdigits2_bounds (Zpos mb) ltac:(lia)) as [Hmb _].
  rewrite Hdb53 in Hmb.
  assert (Hma' : Zpos ma < 2 ^ 53).
  { eapply Z.lt_le_trans; [exact Hma|]. apply Z.pow_le_mono_r; lia. }
  cbn [key]. replace (eb + 1074) with ((ea + 1074) + (eb - ea)) by lia.
  rewrite (Z.pow_add_r 2 (ea + 1074) (eb - ea)) by lia.
  assert (HP : 0 < 2 ^ (ea + 1074)) by (apply Z.pow_pos_nonneg; lia).
  assert (HQ : 2 ^ 1 <= 2 ^ (eb - ea)) by (apply Z.pow_le_mono_r; lia).
  change (2 ^ 1) with 2 in HQ. change (2 ^ (53 - 1)) with 4503599627370496 in Hmb.
  change (2 ^ 53) with 9007199254740992 in Hma'.
  assert (Zpos ma < Zpos mb * 2 ^ (eb - ea)) by nia. nia.
Qed.

Lemma compare_mul_r a b c : 0 < c -> (a * c ?= b * c) = (a ?= b).
Proof.
  intros Hc. destruct (Z.compare_spec a b) as [->|H|H].
  - apply Z.compare_refl.
  - apply Z.compare_lt_iff. nia.
  - apply Z.compare_gt_iff. nia.
Qed.

Lemma compare_key a b :
  nonneg_number a = true -> nonneg_number b = true ->
  SFcompare a b = Some (key a ?= key b).
Proof.
  destruct a as [sa|sa| |[] ma ea], b as [sb|sb| |[] mb eb]; try discriminate;
    cbn [nonneg_number]; intros Ha Hb.
  - reflexivity.
  - cbn [SFcompare]. f_equal. symmetry. apply Z.compare_lt_iff.
    destruct (key_pos mb eb); [assumption|apply bounded_inv in Hb; lia].
  - cbn [SFcompare]. f_equal. symmetry. apply Z.compare_gt_iff.
    destruct (key_pos ma ea); [assumption|apply bounded_inv in Ha; lia].
  - cbn [SFcompare]. f_equal. destruct (Z.compare_spec ea eb) as [->|Hlt|Hgt].
    + change (Pos.compare_cont Eq ma mb) with (Zpos ma ?= Zpos mb).
      cbn [key]. symmetry. apply compare_mul_r.
      apply Z.pow_pos_nonneg; [lia|apply bounded_inv in Hb; lia].
    + symmetry. apply Z.compare_lt_iff. apply key_lt_of_exp_lt; assumption.
    + symmetry. apply Z.compare_gt_iff. apply key_lt_of_exp_lt; assumption.
Qed.

Lemma js_lt_key a b :
  nonneg_number a = true -> nonneg_number b = true -> js_lt a b = (key a <? key b).
Proof.
  intros Ha Hb. unfold js_lt, SFltb. rewrite compare_key by assumption.
  unfold Z.ltb. destruct (key a ?= key b); reflexivity.
Qed.

Lemma js_le_key a b :
  nonneg_number a = true -> nonneg_number b = true -> js_le a b = (key a <=? key b).
Proof.
  intros Ha Hb. unfold js_le, SFleb. rewrite compare_key by assumption.
  unfold Z.leb. destruct (key a ?= key b); reflexivity.
Qed.

Lemma shl_align_fst m ea ez : ez <= ea ->
  Zpos (fst (shl_align m ea ez)) = Zpos m * 2 ^ (ea - ez).
Proof.
  intros H. unfold shl_align. destruct (ez - ea) as [|p|p] eqn:E; try lia.
  - replace (ea - ez) with 0 by lia. simpl fst. lia.
  - cbn [fst]. rewrite iter_xO_pow2. f_equal. f_equal. lia.
Qed.

Lemma key_aligned m e ez : -1074 <= ez -> ez <= e ->
  key (S754_finite false m e) = Zpos (fst (shl_align m e ez)) * 2 ^ (ez + 1074).
Proof.
  intros H1 H2. rewrite shl_align_fst by assumption. cbn [key].
  rewrite <- Z.mul_assoc, <- Z.pow_add_r by lia. f_equal. f_equal. lia.
Qed.

(** Sign of the comparator [a - b] used by the sort. *)
Lemma js_sub_sign a b :
  nonneg_number a = true -> nonneg_number b = true ->
  js_lt (S754_zero false) (js_sub a b) = (key b <? key a).
Proof.
  destruct a as [sa|sa| |[] ma ea], b as [sb|sb| |[] mb eb]; try discriminate;
    cbn [nonneg_number]; intros Ha Hb.
  - destruct sa, sb; reflexivity.
  - cbn [js_sub SFsub js_lt SFltb SFcompare negb]. symmetry. apply Z.ltb_ge.
    destruct (key_pos mb eb) as [H|H]; [cbn [key] in *; lia|apply bounded_inv in Hb; lia].
  - cbn [js_sub SFsub js_lt SFltb SFcompare]. symmetry. apply Z.ltb_lt.
    destruct (key_pos ma ea) as [H|H]; [exact H|apply bounded_inv in Ha; lia].
  - pose proof (bounded_inv _ _ Ha) as (Hea & _). pose proof (bounded_inv _ _ Hb) as (Heb & _).
    unfold js_sub, SFsub. cbn [cond_Zopp].
    set (ez := Z.min ea eb).
    rewrite (key_aligned ma ea ez), (key_aligned mb eb ez) by (unfold ez; lia).
    set (Za := Zpos (fst (shl_align ma ea ez))). set (Zb := Zpos (fst (shl_align mb eb ez))).
    assert (HP : 0 < 2 ^ (ez + 1074)) by (apply Z.pow_pos_nonneg; unfold ez; lia).
    destruct (Za - Zb) as [|p|p] eqn:E; cbn [binary_normalize].
    + symmetry. apply Z.ltb_ge. nia.
    + pose proof (binary_round_pos false p ez ltac:(unfold ez; lia)) as Hs.
      transitivity true; [|symmetry; apply Z.ltb_lt; nia].
      destruct (binary_round prec emax false p ez) as [s|s| |s ? ?]; cbn in Hs; try contradiction;
        subst; reflexivity.
    + pose proof (binary_round_sign true p ez) as Hs.
      transitivity false; [|symmetry; apply Z.ltb_ge; nia].
      destruct (binary_round prec emax true p ez) as [s|s| |s ? ?]; subst; reflexivity.
Qed.

Lemma Math_max_key a b :
  nonneg_number a = true -> nonneg_number b = true ->
  nonneg_number (Math_max a b) = true /\ key (Math_max a b) = Z.max (key a) (key b) /\
  (Math_max a b = a \/ Math_max a b = b).
Proof.
  intros Ha Hb.
  assert (G : forall v, v = (if js_lt a b then b else a) ->
              nonneg_number v = true /\ key v = Z.max (key a) (key b) /\ (v = a \/ v = b)).
  { intros v ->. rewrite js_lt_key by assumption.
    destruct (Z.ltb_spec (key a) (key b)); repeat split; auto; lia. }
  destruct a as [sa|sa| |[] ma ea], b as [sb|sb| |[] mb eb]; try discriminate;
    try (apply G; reflexivity).
  cbn. repeat split. destruct sa, sb; auto.
Qed.

(** ** Integers as Numbers *)

Lemma int_float_mantissa z : 0 < z -> Zdigits2 z <= 53 ->
  Zpos (Z.to_pos (z * 2 ^ (53 - Zdigits2 z))) = z * 2 ^ (53 - Zdigits2 z) /\
  Zdigits2 (z * 2 ^ (53 - Zdigits2 z)) = 53.
Proof.
  intros Hz Hd. split.
  - apply Z2Pos.id. apply Z.mul_pos_pos; [lia|apply Z.pow_pos_nonneg; lia].
  - rewrite Zdigits2_mul_pow2 by lia. lia.
Qed.

Lemma int_float_nonneg z : 0 < z -> Zdigits2 z <= 53 ->
  nonneg_number (int_float false z) = true /\ key (int_float false z) = z * 2 ^ 1074.
Proof.
  intros Hz Hd. destruct (int_float_mantissa z Hz Hd) as [Hm Hdm].
  pose proof (Zdigits2_pos z Hz). unfold int_float. split.
  - cbn [nonneg_number]. unfold bounded, canonical_mantissa.
    apply andb_true_iff; split; [apply Z.eqb_eq|apply Z.leb_le; unfold emax, prec; lia].
    change (Zpos (digits2_pos ?p)) with (Zdigits2 (Zpos p)).
    rewrite Hm, Hdm, fexp_unfold. lia.
  - cbn [key]. rewrite Hm, <- Z.mul_assoc, <- Z.pow_add_r by lia. f_equal. f_equal. lia.
Qed.

Lemma num_of_Z_pos z : 0 < z < 2 ^ 53 -> num_of_Z z = int_float false z.
Proof.
  intros Hz. unfold num_of_Z, binary_normalize. destruct z as [|p|p]; try lia.
  apply binary_round_int; try lia. apply Zdigits2_le; lia.
Qed.

Lemma num_of_Z_key z : 0 <= z < 2 ^ 53 ->
  nonneg_number (num_of_Z z) = true /\ key (num_of_Z z) = z * 2 ^ 1074.
Proof.
  intros Hz. destruct (Z.eq_dec z 0) as [->|Hn]; [split; reflexivity|].
  rewrite num_of_Z_pos by lia. apply int_float_nonneg; [lia|apply Zdigits2_le; lia].
Qed.

Lemma num_of_Z_compare a b : 0 <= a < 2 ^ 53 -> 0 <= b < 2 ^ 53 ->
  SFcompare (num_of_Z a) (num_of_Z b) = Some (a ?= b).
Proof.
  intros Ha Hb. destruct (num_of_Z_key a Ha) as [Na Ka], (num_of_Z_key b Hb) as [Nb Kb].
  rewrite compare_key, Ka, Kb by assumption. f_equal. apply compare_mul_r. reflexivity.
Qed.

Lemma num_of_Z_lt a b : 0 <= a < 2 ^ 53 -> 0 <= b < 2 ^ 53 ->
  js_lt (num_of_Z a) (num_of_Z b) = (a <? b).
Proof.
  intros Ha Hb. unfold js_lt, SFltb. rewrite num_of_Z_compare by assumption.
  unfold Z.ltb. destruct (a ?= b); reflexivity.
Qed.

Lemma num_of_Z_le a b : 0 <= a < 2 ^ 53 -> 0 <= b < 2 ^ 53 ->
  js_le (num_of_Z a) (num_of_Z b) = (a <=? b).
Proof.
  intros Ha Hb. unfold js_le, SFleb. rewrite num_of_Z_compare by assumption.
  unfold Z.leb. destruct (a ?= b); reflexivity.
Qed.

Lemma int_float_value z : 0 < z -> Zdigits2 z <= 53 ->
  Z.shiftl (Zpos (Z.to_pos (z * 2 ^ (53 - Zdigits2 z)))) (Zdigits2 z - 53) = z.
Proof.
  intros Hz Hd. destruct (int_float_mantissa z Hz Hd) as [-> _].
  rewrite <- Z.shiftr_opp_r, Z.shiftr_div_pow2 by lia.
  replace (- (Zdigits2 z - 53)) with (53 - Zdigits2 z) by lia.
  apply Z.div_mul. apply Z.pow_nonzero; lia.
Qed.

Lemma floorZ_num_of_Z z : 0 <= z < 2 ^ 53 -> floorZ (num_of_Z z) = Some z.
Proof.
  intros Hz. destruct (Z.eq_dec z 0) as [->|Hn]; [reflexivity|].
  rewrite num_of_Z_pos by lia. unfold int_float. cbn [floorZ cond_Zopp].
  rewrite int_float_value; [reflexivity|lia|apply Zdigits2_le; lia].
Qed.

(** Exact sums and differences of integers below 2^53. *)
Lemma int_float_aligned z ez : 0 < z -> Zdigits2 z <= 53 -> ez <= Zdigits2 z - 53 ->
  Zpos (fst (shl_align (Z.to_pos (z * 2 ^ (53 - Zdigits2 z))) (Zdigits2 z - 53) ez))
  = z * 2 ^ (- ez).
Proof.
  intros Hz Hd He. rewrite shl_align_fst by assumption.
  destruct (int_float_mantissa z Hz Hd) as [-> _].
  pose proof (Zdigits2_pos z Hz).
  rewrite <- Z.mul_assoc, <- Z.pow_add_r by lia. f_equal. f_equal. lia.
Qed.

Lemma binary_normalize_int z ez : 0 <= z < 2 ^ 53 -> ez <= 0 ->
  binary_normalize prec emax (z * 2 ^ (- ez)) ez false = num_of_Z z.
Proof.
  intros Hz He. destruct (Z.eq_dec z 0) as [->|Hn]; [reflexivity|].
  rewrite num_of_Z_pos by lia.
  assert (0 < z * 2 ^ (- ez)) by (apply Z.mul_pos_pos; [lia|apply Z.pow_pos_nonneg; lia]).
  destruct (z * 2 ^ (- ez)) as [|p|p] eqn:E; try lia. cbn [binary_normalize].
  apply binary_round_int; try lia. apply Zdigits2_le; lia.
Qed.

Lemma js_add_int a b : 0 <= a -> 0 <= b -> a + b < 2 ^ 53 ->
  js_add (num_of_Z a) (num_of_Z b) = num_of_Z (a + b).
Proof.
  intros Ha Hb Hab.
  destruct (Z.eq_dec a 0) as [->|Hna].
  { destruct (Z.eq_dec b 0) as [->|Hnb]; [reflexivity|].
    cbn [Z.add]. rewrite (num_of_Z_pos b) by lia. reflexivity. }
  destruct (Z.eq_dec b 0) as [->|Hnb].
  { rewrite Z.add_0_r. rewrite (num_of_Z_pos a) by lia. reflexivity. }
  assert (Hda : Zdigits2 a <= 53) by (apply Zdigits2_le; lia).
  assert (Hdb : Zdigits2 b <= 53) by (apply Zdigits2_le; lia).
  rewrite (num_of_Z_pos a), (num_of_Z_pos b) by lia.
  unfold int_float, js_add, SFadd. cbn [cond_Zopp].
  set (ez := Z.min (Zdigits2 a - 53) (Zdigits2 b - 53)).
  rewrite !int_float_aligned by (unfold ez; lia).
  rewrite <- Z.mul_add_distr_r. apply binary_normalize_int; unfold ez; lia.
Qed.

Lemma js_sub_int a b : 0 <= b <= a -> a < 2 ^ 53 ->
  js_sub (num_of_Z a) (num_of_Z b) = num_of_Z (a - b).
Proof.
  intros Hb Ha.
  destruct (Z.eq_dec b 0) as [->|Hnb].
  { rewrite Z.sub_0_r. destruct (Z.eq_dec a 0) as [->|Hna]; [reflexivity|].
    rewrite (num_of_Z_pos a) by lia. reflexivity. }
  assert (Hda : Zdigits2 a <= 53) by (apply Zdigits2_le; lia).
  assert (Hdb : Zdigits2 b <= 53) by (apply Zdigits2_le; lia).
  rewrite (num_of_Z_pos a), (num_of_Z_pos b) by lia.
  unfold int_float, js_sub, SFsub. cbn [cond_Zopp].
  set (ez := Z.min (Zdigits2 a - 53) (Zdigits2 b - 53)).
  rewrite !int_float_aligned by (unfold ez; lia).
  rewrite <- Z.mul_sub_distr_r. apply binary_normalize_int; unfold ez; lia.
Qed.

Lemma ToLength_num_of_Z z : 0 <= z < 2 ^ 53 -> ToLength (num_of_Z z) = Z.to_nat z.
Proof.
  intros Hz. pose proof (floorZ_num_of_Z z Hz) as Hf. unfold ToLength. rewrite Hf.
  destruct (Z.eq_dec z 0) as [->|Hn]; [reflexivity|].
  rewrite num_of_Z_pos by lia. unfold int_float. f_equal. lia.
Qed.

Lemma Math_min_int a b : 0 <= a < 2 ^ 53 -> 0 <= b < 2 ^ 53 ->
  Math_min (num_of_Z a) (num_of_Z b) = num_of_Z (Z.min a b).
Proof.
  intros Ha Hb.
  assert (G : (if js_lt (num_of_Z b) (num_of_Z a) then num_of_Z b else num_of_Z a)
              = num_of_Z (Z.min a b)).
  { rewrite num_of_Z_lt by assumption. destruct (Z.ltb_spec b a); f_equal; lia. }
  destruct (Z.eq_dec a 0) as [->|Hna], (Z.eq_dec b 0) as [->|Hnb].
  - reflexivity.
  - rewrite <- G. rewrite (num_of_Z_pos b) by lia. reflexivity.
  - rewrite <- G. rewrite (num_of_Z_pos a) by lia. reflexivity.
  - rewrite <- G. rewrite (num_of_Z_pos a), (num_of_Z_pos b) by lia. reflexivity.
Qed.

Lemma array_index_num_of_Z z : 0 <= z < 2 ^ 53 ->
  array_index (num_of_Z z) = if z <? 2 ^ 32 - 1 then Some (Z.to_nat z) else None.
Proof.
  intros Hz. destruct (Z.eq_dec z 0) as [->|Hn]; [reflexivity|].
  assert (Hd : Zdigits2 z <= 53) by (apply Zdigits2_le; lia).
  rewrite num_of_Z_pos by lia. unfold int_float. cbn [array_index]. cbv zeta.
  rewrite int_float_value by lia.
  destruct (int_float_mantissa z ltac:(lia) Hd) as [-> _].
  pose proof (Zdigits2_pos z ltac:(lia)).
  replace (Z.shiftl z (- (Zdigits2 z - 53)) =? z * 2 ^ (53 - Zdigits2 z)) with true.
  - reflexivity.
  - symmetry. apply Z.eqb_eq. rewrite Z.shiftl_mul_pow2 by lia. f_equal. f_equal. lia.
Qed.

Lemma array_get_int_valued {A} (l : list A) c z :
  int_valued c z -> 0 <= z < 2 ^ 53 -> Z.of_nat (length l) <= 2 ^ 32 - 1 ->
  array_get l c = nth_error l (Z.to_nat z).
Proof.
  intros [->|[-> ->]] Hz Hl; [|reflexivity].
  unfold array_get. rewrite array_index_num_of_Z by assumption.
  destruct (Z.ltb_spec z (2 ^ 32 - 1)); [reflexivity|].
  symmetry. apply nth_error_None. lia.
Qed.

Lemma js_le_int_valued i c z :
  int_valued c z -> 0 <= z < 2 ^ 53 -> 0 <= i < 2 ^ 53 ->
  js_le (num_of_Z i) c = (i <=? z).
Proof.
  intros [->|[-> ->]] Hz Hi.
  - apply num_of_Z_le; assumption.
  - change (js_le (num_of_Z i) (S754_zero true)) with (js_le (num_of_Z i) (num_of_Z 0)) at 1.
    apply num_of_Z_le; lia.
Qed.

Lemma shiftr_le m k : 0 <= m -> 0 <= k -> 0 <= Z.shiftr m k <= m.
Proof.
  intros Hm Hk. rewrite Z.shiftr_div_pow2 by assumption.
  assert (0 < 2 ^ k) by (apply Z.pow_pos_nonneg; lia). split.
  - apply Z.div_pos; lia.
  - rewrite <- (Z.div_1_r m) at 2. apply Z.div_le_compat_l; lia.
Qed.

Lemma shiftr_half m k : 0 <= m -> 1 <= k -> 2 * Z.shiftr m k <= m.
Proof.
  intros Hm Hk. rewrite Z.shiftr_div_pow2 by lia.
  assert (2 ^ 1 <= 2 ^ k) by (apply Z.pow_le_mono_r; lia).
  change (2 ^ 1) with 2 in *.
  assert (m / 2 ^ k <= m / 2) by (apply Z.div_le_compat_l; lia).
  pose proof (Z.mul_div_le m 2 ltac:(lia)). lia.
Qed.

Lemma Zdigits2_lt_pow2 m k : 0 <= m -> Zdigits2 m <= k -> m < 2 ^ k.
Proof.
  intros Hm Hk. destruct (Z.eq_dec m 0) as [->|Hn].
  - apply Z.pow_pos_nonneg; [lia|]. change (Zdigits2 0) with 0 in Hk. lia.
  - pose proof (Zdigits2_bounds m ltac:(lia)) as [_ H].
    pose proof (Zdigits2_pos m ltac:(lia)).
    eapply Z.lt_le_trans; [exact H|]. apply Z.pow_le_mono_r; lia.
Qed.

(** The cut-off [Math.floor(length * targetValue)] is an integer between 0
    and [length] whenever [targetValue] lies in [0, 1]: rounding the product
    to nearest cannot pass the representable bound [length]. *)
Lemma js_mul_floor n t :
  0 <= n < 2 ^ 32 -> is_number t = true ->
  js_le (S754_zero false) t = true -> js_le t (num_of_Z 1) = true ->
  exists z, 0 <= z < 2 ^ 53 /\ floorZ (js_mul (num_of_Z n) t) = Some z /\
            int_valued (Math_floor (js_mul (num_of_Z n) t)) z /\ z <= n.
Proof.
  intros Hn Hv H0 H1.
  destruct t as [s|s| |s mt et]; try (destruct s; discriminate); try discriminate.
  - exists 0. assert (E : js_mul (num_of_Z n) (S754_zero s) = S754_zero s).
    { destruct (Z.eq_dec n 0) as [->|Hnz]; [destruct s; reflexivity|].
      rewrite num_of_Z_pos by lia. destruct s; reflexivity. }
    rewrite E. repeat split; try lia. destruct s; [right|left]; auto.
  - destruct s; [discriminate|].
    destruct (Z.eq_dec n 0) as [->|Hnz].
    { exists 0. repeat split; try lia. left. reflexivity. }
    assert (Het : et <= -52 /\ Zpos mt <= 2 ^ (- et) /\ Zpos mt < 2 ^ 53).
    { change (num_of_Z 1) with (S754_finite false 4503599627370496 (-52)) in H1.
      unfold js_le, SFleb in H1. cbn [SFcompare] in H1.
      cbn [is_number valid_binary] in Hv. apply bounded_inv in Hv.
      destruct Hv as (_ & Hdt & _).
      pose proof (Zdigits2_lt_pow2 (Zpos mt) 53 ltac:(lia) Hdt) as Hlt.
      destruct (Z.compare_spec et (-52)) as [->|Hlt52|Hgt]; try discriminate.
      - split; [lia|]. split; [|exact Hlt]. change (2 ^ (- -52)) with 4503599627370496.
        match type of H1 with
        | context [match ?c with Eq => _ | Lt => _ | Gt => _ end] => destruct c eqn:Hc
        end; try discriminate.
        + apply Pos.compare_eq_iff in Hc. subst mt. reflexivity.
        + apply Pos.compare_lt_iff, Pos2Z.pos_lt_pos in Hc. apply Z.lt_le_incl, Hc.
      - split; [lia|]. split; [|exact Hlt].
        apply Z.lt_le_incl. eapply Z.lt_le_trans; [exact Hlt|].
        apply Z.pow_le_mono_r; lia. }
    destruct Het as (Het & Hmt & Hmt53).
    assert (Hdn : Zdigits2 n <= 32) by (apply Zdigits2_le; lia).
    pose proof (Zdigits2_pos n ltac:(lia)) as Hdn0.
    rewrite num_of_Z_pos by lia. unfold int_float. cbn [js_mul SFmul xorb].
    destruct (int_float_mantissa n ltac:(lia) ltac:(lia)) as [Hmn Hdmn].
    set (mn := Z.to_pos (n * 2 ^ (53 - Zdigits2 n))) in *.
    set (e := Zdigits2 n - 53 + et).
    destruct (binary_round_aux_spec false (mn * mt) e) as (m2 & Hb & Hex & ->).
    set (m := Zpos (mn * mt)) in *.
    assert (HP : 0 < 2 ^ (- et)) by (apply Z.pow_pos_nonneg; lia).
    assert (Hmn53 : Zpos mn < 2 ^ 53).
    { rewrite <- Hmn in Hdmn. apply Zdigits2_lt_pow2; lia. }
    assert (Hm : 0 < m <= Zpos mn * 2 ^ (- et)).
    { unfold m. rewrite Pos2Z.inj_mul. nia. }
    assert (Hd : Zdigits2 m <= 53 - et).
    { apply Zdigits2_le; try lia. replace (53 - et) with (53 + - et) by lia.
      rewrite Z.pow_add_r by lia.
      assert (Zpos mn * 2 ^ (- et) < 2 ^ 53 * 2 ^ (- et))
        by (apply Z.mul_lt_mono_pos_r; assumption).
      lia. }
    pose proof (Zdigits2_pos m ltac:(lia)) as Hd0.
    set (K := shift_of m e) in *.
    assert (HK : 0 <= K <= - et /\ Zdigits2 m - 53 <= K /\ e + K <= -20).
    { assert (Zdigits2 m <= 106).
      { apply Zdigits2_le; try lia. unfold m. rewrite Pos2Z.inj_mul.
        change (2 ^ 106) with (2 ^ 53 * 2 ^ 53). nia. }
      unfold K. rewrite shift_of_eq. unfold e. lia. }
    pose proof (shiftr_le m K ltac:(lia) ltac:(lia)) as Hm1.
    assert (Hm1b : Z.shiftr m K < 2 ^ 53).
    { apply Zdigits2_lt_pow2; [lia|]. rewrite Zdigits2_shiftr by lia. lia. }
    (* the bound [n], counted in units of the new last place *)
    set (N := Zpos mn * 2 ^ (- et - K)).
    assert (HPK : 0 < 2 ^ K) by (apply Z.pow_pos_nonneg; lia).
    assert (HNK : Zpos mn * 2 ^ (- et) = 2 ^ K * N).
    { unfold N. replace (- et) with (K + (- et - K)) at 1 by lia.
      rewrite Z.pow_add_r by lia. ring. }
    assert (Hm2N : m2 <= N).
    { rewrite Z.shiftr_div_pow2 in Hb, Hex by lia.
      assert (Hq : m / 2 ^ K <= N) by (apply Z.div_le_upper_bound; lia).
      destruct (Z.eq_dec (m / 2 ^ K) N) as [Heq|Hne]; [|lia].
      rewrite Hex; [lia|].
      pose proof (Z.mul_div_le m (2 ^ K) HPK).
      apply Z.div_exact; lia. }
    assert (Hd2 : Zdigits2 m2 <= 54) by (apply Zdigits2_le; lia).
    pose proof (Zdigits2_nonneg m2 ltac:(lia)) as Hd20.
    set (K2 := shift_of m2 (e + K)).
    assert (HK2 : 0 <= K2 /\ e + K + K2 <= -19).
    { unfold K2. rewrite shift_of_eq. lia. }
    pose proof (shiftr_le m2 K2 ltac:(lia) ltac:(lia)) as Hzm.
    destruct (Z.shiftr m2 K2) as [|q|q] eqn:Eq; try lia; cbn [pack].
    { exists 0. repeat split; try lia. left. reflexivity. }
    replace (e + K + K2 <=? emax - prec) with true
      by (symmetry; apply Z.leb_le; unfold emax, prec; lia).
    exists (Z.shiftl (Zpos q) (e + K + K2)).
    assert (Hz : 0 <= Z.shiftl (Zpos q) (e + K + K2) < 2 ^ 53).
    { rewrite <- Z.shiftr_opp_r.
      pose proof (shiftr_le (Zpos q) (- (e + K + K2)) ltac:(lia) ltac:(lia)).
      pose proof (shiftr_half (Zpos q) (- (e + K + K2)) ltac:(lia) ltac:(lia)). lia. }
    assert (Hzn : Z.shiftl (Zpos q) (e + K + K2) <= n).
    { rewrite <- Z.shiftr_opp_r, <- Eq, Z.shiftr_shiftr by lia.
      replace (K2 + - (e + K + K2)) with (- (e + K)) by lia.
      rewrite Z.shiftr_div_pow2 by lia.
      assert (0 < 2 ^ (- (e + K))) by (apply Z.pow_pos_nonneg; lia).
      apply Z.div_le_upper_bound; [assumption|].
      assert (HN : N = 2 ^ (- (e + K)) * n).
      { unfold N. rewrite Hmn. unfold e.
        replace (- (Zdigits2 n - 53 + et + K)) with ((53 - Zdigits2 n) + (- et - K)) by lia.
        rewrite Z.pow_add_r by lia. ring. }
      lia. }
    repeat split; try lia.
    left. cbn [Math_floor cond_Zopp].
    replace (0 <=? e + K + K2) with false by (symmetry; apply Z.leb_gt; lia).
    reflexivity.
Qed.

(* ================================================================= *)
(** * Part III. The generation loop *)
(* ================================================================= *)

Lemma samples_cons d k n :
  samples d k (S n) = sample_at d k :: samples d (k + 2) n.
Proof.
  unfold samples. rewrite <- cons_seq, <- seq_shift, map_cons, map_map.
  f_equal; [f_equal; lia|]. apply map_ext. intros j. f_equal. lia.
Qed.

Lemma samples_app d a : forall k b,
  samples d k (a + b) = samples d k a ++ samples d (k + 2 * a) b.
Proof.
  induction a as [|a IH]; intros k b.
  - cbn [Nat.add]. unfold samples at 2. cbn [seq map app]. f_equal. lia.
  - cbn [Nat.add]. rewrite !samples_cons, IH. cbn [app]. do 3 f_equal. lia.
Qed.

Lemma samples_length d k n : length (samples d k n) = n.
Proof. unfold samples. rewrite length_map, length_seq. reflexivity. Qed.

Lemma Array_from_newPoint d n : forall k,
  Array_from n newPoint d k = (samples d k n, (k + 2 * n)%nat).
Proof.
  induction n as [|n IH]; intros k.
  - cbn [Array_from]. unfold ret, samples. cbn [seq map]. f_equal. lia.
  - rewrite samples_cons. cbn [Array_from]. unfold bind at 1.
    change (newPoint d k) with (sample_at d k, S (S k)).
    unfold bind at 1. rewrite IH. unfold ret. f_equal; [|lia].
    do 2 f_equal. lia.
Qed.

(** The chunked loop reads exactly [numPoints] samples, in stream order,
    provided the fuel covers the [ceil(numPoints / 1000)] iterations. *)
Lemma generate_chunks_spec d n : Z.of_nat n < 2 ^ 52 ->
  forall fuel i acc k,
    (i <= n + 1000)%nat -> (n - i <= 1000 * fuel)%nat ->
    generate_chunks fuel (num_of_nat n) (num_of_nat i) acc d k
    = (Some (acc ++ samples d k (n - i)), (k + 2 * (n - i))%nat).
Proof.
  intros Hn. induction fuel as [|fuel IH]; intros i acc k Hi Hfuel.
  - assert (Hle : (n <= i)%nat) by lia.
    cbn [generate_chunks]. unfold num_of_nat. rewrite num_of_Z_lt by lia.
    replace (Z.of_nat i <? Z.of_nat n) with false by (symmetry; apply Z.ltb_ge; lia).
    replace (n - i)%nat with 0%nat by lia. unfold ret, samples. cbn [seq map].
    rewrite app_nil_r. f_equal. lia.
  - cbn [generate_chunks]. unfold num_of_nat at 1 2. rewrite num_of_Z_lt by lia.
    destruct (Z.ltb_spec (Z.of_nat i) (Z.of_nat n)) as [Hlt|Hge].
    + unfold num_of_nat, chunkSize. rewrite js_sub_int by lia.
      rewrite Math_min_int by lia. rewrite ToLength_num_of_Z by lia.
      rewrite js_add_int by lia.
      set (c := Z.to_nat (Z.min 1000 (Z.of_nat n - Z.of_nat i))).
      assert (Hc : (c = Nat.min 1000 (n - i))%nat) by (unfold c; lia).
      unfold bind. rewrite Array_from_newPoint.
      replace (Z.of_nat i + 1000) with (Z.of_nat (i + 1000)) by lia.
      specialize (IH (i + 1000)%nat (acc ++ samples d k c) (k + 2 * c)%nat).
      unfold num_of_nat in IH. rewrite IH by lia.
      rewrite <- app_assoc, <- samples_app. f_equal; [|lia].
      do 3 f_equal. lia.
    + replace (n - i)%nat with 0%nat by lia. unfold ret, samples. cbn [seq map].
      rewrite app_nil_r. f_equal. lia.
Qed.

Lemma generatePoints_spec fuel st n d k :
  numPoints st = num_of_nat n -> Z.of_nat n < 2 ^ 52 -> (n <= 1000 * fuel)%nat ->
  generatePoints fuel st d k
  = (Some (threshold st (samples d k n)), (k + 2 * n)%nat).
Proof.
  intros Hnum Hn Hfuel. unfold generatePoints, bind. rewrite Hnum.
  change (S754_zero false) with (num_of_nat 0).
  rewrite (generate_chunks_spec d n Hn fuel 0%nat [] k) by lia.
  rewrite Nat.sub_0_r. reflexivity.
Qed.

Lemma generatePoints_single_pass_spec st n d k :
  numPoints st = num_of_nat n -> Z.of_nat n < 2 ^ 53 ->
  generatePoints_single_pass st d k
  = (threshold st (samples d k n), (k + 2 * n)%nat).
Proof.
  intros Hnum Hn. unfold generatePoints_single_pass, bind. rewrite Hnum.
  unfold num_of_nat. rewrite ToLength_num_of_Z by lia. rewrite Nat2Z.id.
  rewrite Array_from_newPoint. reflexivity.
Qed.

(* ================================================================= *)
(** * Part IV. Sorting and thresholding *)
(* ================================================================= *)

Section Sorting.

Variable A : Type.
Variable mx : A -> number.

Let comparefn (a b : A) : number := js_sub (mx a) (mx b).
Let le_key (a b : A) : Prop := key (mx a) <= key (mx b).
Let good (a : A) : Prop := nonneg_number (mx a) = true.

Lemma insert_perm a l : Permutation (insert comparefn a l) (a :: l).
Proof.
  induction l as [|b l IH]; cbn [insert]; [reflexivity|].
  destruct (js_lt _ _); [|reflexivity].
  rewrite IH. apply perm_swap.
Qed.

Lemma Array_sort_perm l : Permutation (Array_sort comparefn l) l.
Proof.
  induction l as [|a l IH]; cbn; [reflexivity|].
  fold (Array_sort comparefn l). rewrite insert_perm. constructor. exact IH.
Qed.

Lemma insert_sorted a l :
  good a -> Forall good l -> StronglySorted le_key l ->
  StronglySorted le_key (insert comparefn a l).
Proof.
  intros Ha Hl Hs. induction l as [|b l IH]; cbn [insert].
  - repeat constructor.
  - inversion Hl as [|? ? Hb Hl']; subst.
    apply StronglySorted_inv in Hs. destruct Hs as [Hs Hall].
    unfold comparefn at 1. rewrite js_sub_sign by assumption.
    destruct (Z.ltb_spec (key (mx b)) (key (mx a))) as [Hlt|Hge].
    + constructor; [apply IH; assumption|].
      eapply Permutation_Forall; [symmetry; apply insert_perm|].
      constructor; [unfold le_key; lia|assumption].
    + constructor; [constructor; assumption|].
      constructor; [exact Hge|].
      eapply Forall_impl; [|exact Hall]. unfold le_key. intros c Hc. cbv beta in Hc. lia.
Qed.

Lemma Array_sort_sorted l :
  Forall good l -> StronglySorted le_key (Array_sort comparefn l).
Proof.
  induction l as [|a l IH]; intros Hl; cbn; [constructor|].
  fold (Array_sort comparefn l). inversion Hl; subst.
  apply insert_sorted; auto.
  eapply Permutation_Forall; [symmetry; apply Array_sort_perm|assumption].
Qed.

Lemma sorted_nth l : StronglySorted le_key l ->
  forall i j a b, (i <= j)%nat ->
    nth_error l i = Some a -> nth_error l j = Some b -> le_key a b.
Proof.
  induction 1 as [|c l Hs IH Hall]; intros i j a b Hij Hi Hj.
  - destruct i; discriminate.
  - destruct i as [|i], j as [|j]; cbn in Hi, Hj; try lia.
    + injection Hi as <-. injection Hj as <-. unfold le_key. lia.
    + injection Hi as <-. rewrite Forall_forall in Hall. apply Hall.
      eapply nth_error_In; eassumption.
    + eapply IH; [|eassumption|eassumption]. lia.
Qed.

End Sorting.

Lemma map_from_length {A B} (f : A -> nat -> B) l : forall i,
  length (map_from f i l) = length l.
Proof. induction l as [|a l IH]; intros i; cbn; [reflexivity|]. rewrite IH. reflexivity. Qed.

Lemma map_from_nth {A B} (f : A -> nat -> B) l : forall i j,
  nth_error (map_from f i l) j = option_map (fun a => f a (i + j)%nat) (nth_error l j).
Proof.
  induction l as [|a l IH]; intros i j.
  - destruct j; reflexivity.
  - destruct j as [|j]; cbn [map_from nth_error option_map].
    + rewrite Nat.add_0_r. reflexivity.
    + rewrite IH. replace (S i + j)%nat with (i + S j)%nat by lia. reflexivity.
Qed.

(** Number of ranks of [i0, i0 + length l) that are at most [z]. *)
Lemma selected_count_map_from c z l : forall i0,
  (forall i, 0 <= i < 2 ^ 53 -> js_le (num_of_Z i) c = (i <=? z)) ->
  Z.of_nat (i0 + length l) < 2 ^ 53 ->
  selected_count (map_from (select c) i0 l)
  = Z.to_nat (Z.max 0 (Z.min (Z.of_nat (i0 + length l)) (z + 1) - Z.of_nat i0)).
Proof.
  unfold selected_count.
  induction l as [|a l IH]; intros i0 Hle Hlen.
  - cbn [map_from filter length]. lia.
  - cbn [map_from filter length] in *. cbn [select Point.selected].
    unfold num_of_nat. rewrite Hle by lia.
    specialize (IH (S i0) Hle ltac:(lia)).
    replace (S i0 + length l)%nat with (i0 + S (length l))%nat in IH by lia.
    destruct (Z.leb_spec (Z.of_nat i0) z); cbn [length]; rewrite IH; lia.
Qed.

(** ** What the stream of draws guarantees *)

Lemma js_lt_le a b : js_lt a b = true -> js_le a b = true.
Proof. unfold js_lt, js_le, SFltb, SFleb. destruct (SFcompare a b) as [[]|]; auto. Qed.

Lemma random_value_range v : random_value v = true ->
  nonneg_number v = true /\
  js_le (num_of_Z 0) v = true /\ js_le v (num_of_Z 1) = true /\
  (if truthy v then True else v = S754_zero false).
Proof.
  destruct v as [[]|s| |[] m e]; try discriminate; cbn [random_value].
  - intros _. repeat split.
  - rewrite andb_true_iff. intros [Hb Hlt]. repeat split; auto using js_lt_le.
Qed.

Lemma Math_max_random a b :
  random_value a = true -> random_value b = true -> random_value (Math_max a b) = true.
Proof.
  intros Ha Hb.
  destruct (random_value_range a Ha) as (Na & _), (random_value_range b Hb) as (Nb & _).
  destruct (Math_max_key a b Na Nb) as (_ & _ & [->| ->]); assumption.
Qed.

Lemma samples_well_formed d k n : uniform d -> Forall well_formed_sample (samples d k n).
Proof.
  intros Hd. unfold samples. apply Forall_map, Forall_forall. intros j _.
  repeat split; apply Hd.
Qed.

Lemma well_formed_max r : well_formed_sample r ->
  random_value (Raw.max r) = true /\ nonneg_number (Raw.max r) = true.
Proof.
  intros (Hx & Hy & ->). pose proof (Math_max_random _ _ Hx Hy) as H.
  split; [exact H|apply random_value_range; exact H].
Qed.

(** ** The thresholding pass *)

Lemma sorted_length raw : length (Array_sort by_max raw) = length raw.
Proof. apply Permutation_length, (Array_sort_perm Raw.t Raw.max). Qed.

Lemma threshold_points st raw :
  points (threshold st raw)
  = Array_map (select (cutoffIndex (length raw) (targetValue st))) (Array_sort by_max raw).
Proof. unfold threshold. cbn [points]. rewrite sorted_length. reflexivity. Qed.

Lemma threshold_length st raw : length (points (threshold st raw)) = length raw.
Proof.
  rewrite threshold_points. unfold Array_map. rewrite map_from_length. apply sorted_length.
Qed.

Lemma threshold_nth st raw i p :
  nth_error (points (threshold st raw)) i = Some p ->
  exists r, nth_error (Array_sort by_max raw) i = Some r /\
            p = select (cutoffIndex (length raw) (targetValue st)) r i.
Proof.
  rewrite threshold_points. unfold Array_map. rewrite map_from_nth.
  destruct (nth_error (Array_sort by_max raw) i) as [r|]; [|discriminate].
  cbn. intros [= <-]. exists r. auto.
Qed.

Lemma threshold_sorted_nth st raw i j p q :
  Forall well_formed_sample raw -> (i <= j)%nat ->
  nth_error (points (threshold st raw)) i = Some p ->
  nth_error (points (threshold st raw)) j = Some q ->
  js_le (Point.max p) (Point.max q) = true.
Proof.
  intros Hwf Hij Hp Hq.
  destruct (threshold_nth _ _ _ _ Hp) as (r & Hr & ->).
  destruct (threshold_nth _ _ _ _ Hq) as (s & Hs & ->).
  cbn [select Point.max].
  assert (Hgood : Forall (fun a => nonneg_number (Raw.max a) = true) raw).
  { eapply Forall_impl; [|exact Hwf]. intros a Ha. apply well_formed_max, Ha. }
  pose proof (Array_sort_sorted Raw.t Raw.max raw Hgood) as Hsorted.
  pose proof (sorted_nth Raw.t Raw.max _ Hsorted i j r s Hij Hr Hs) as Hle.
  assert (Hgs : Forall (fun a => nonneg_number (Raw.max a) = true) (Array_sort by_max raw)).
  { eapply Permutation_Forall; [symmetry; apply (Array_sort_perm Raw.t Raw.max)|exact Hgood]. }
  rewrite Forall_forall in Hgs.
  rewrite js_le_key by (apply Hgs; eapply nth_error_In; eassumption).
  apply Z.leb_le. exact Hle.
Qed.

(** The cut-off of a clamped input is the Number of an integer of
    [0, numPoints]. *)
Lemma clamped_cutoff st n : clamped st n ->
  exists z, 0 <= z < 2 ^ 53 /\
            floorZ (js_mul (num_of_nat n) (targetValue st)) = Some z /\
            int_valued (cutoffIndex n (targetValue st)) z /\ z <= Z.of_nat n.
Proof.
  intros (_ & Hn & Hv & H0 & H1). apply js_mul_floor; auto. lia.
Qed.

Lemma clamped_run fuel st n d k : clamped st n -> (10 <= fuel)%nat ->
  generatePoints fuel st d k = (Some (threshold st (samples d k n)), (k + 2 * n)%nat).
Proof.
  intros (Hnum & Hn & _) Hfuel. apply generatePoints_spec; auto; lia.
Qed.

Lemma threshold_selected st raw z i p :
  int_valued (cutoffIndex (length raw) (targetValue st)) z -> 0 <= z < 2 ^ 53 ->
  Z.of_nat (length raw) < 2 ^ 53 ->
  nth_error (points (threshold st raw)) i = Some p ->
  Point.selected p = (Z.of_nat i <=? z).
Proof.
  intros Hc Hz Hlen Hp.
  assert (Hi : (i < length raw)%nat).
  { rewrite <- (threshold_length st). apply nth_error_Some. congruence. }
  destruct (threshold_nth _ _ _ _ Hp) as (r & _ & ->). cbn [select Point.selected].
  apply js_le_int_valued; auto. lia.
Qed.

Lemma threshold_estimate st raw z :
  int_valued (cutoffIndex (length raw) (targetValue st)) z -> 0 <= z < 2 ^ 53 ->
  Z.of_nat (length raw) <= 2 ^ 32 - 1 ->
  approximatedSqrt (threshold st raw)
  = match nth_error (points (threshold st raw)) (Z.to_nat z) with
    | Some p => if truthy (Point.max p) then Point.max p else S754_zero false
    | None => S754_zero false
    end.
Proof.
  intros Hc Hz Hlen. pose proof (threshold_points st raw) as Hpts.
  unfold threshold in *. cbn [approximatedSqrt points] in *.
  rewrite sorted_length in *. unfold max_at_or_zero.
  rewrite (array_get_int_valued _ _ z Hc Hz); [reflexivity|].
  unfold Array_map. rewrite map_from_length, sorted_length. exact Hlen.
Qed.

Lemma threshold_selected_count st raw z :
  int_valued (cutoffIndex (length raw) (targetValue st)) z -> 0 <= z < 2 ^ 53 ->
  Z.of_nat (length raw) < 2 ^ 53 ->
  selected_count (points (threshold st raw)) = clamp_count z (length raw).
Proof.
  intros Hint Hz Hlen. rewrite threshold_points. unfold Array_map.
  rewrite selected_count_map_from with (z := z).
  - rewrite sorted_length. unfold clamp_count. f_equal. cbn [Nat.add]. lia.
  - intros i Hi. apply js_le_int_valued; assumption.
  - rewrite sorted_length. cbn [Nat.add]. lia.
Qed.

(* ================================================================= *)
(** * Part V. The properties of the specification *)
(* ================================================================= *)

Lemma demo_draws_uniform : uniform demo_draws.
Proof.
  intros k. unfold demo_draws.
  pose proof (Nat.mod_upper_bound (k * 5) 8 ltac:(discriminate)) as H.
  destruct (Nat.modulo (k * 5) 8) as [|[|[|[|[|[|[|[|j]]]]]]]]; try reflexivity.
  exfalso. lia.
Qed.

Lemma demo_clamped : clamped (with_inputs one_half 100) 100.
Proof. repeat split; try reflexivity; cbn; lia. Qed.

(** C5.  For every [numPoints] in [100, 10000] and [targetValue] in [0, 1],
    [generatePoints] returns (with ten iterations of fuel or more) and the
    sequence [points] has exactly [numPoints] elements. *)
Theorem generate_length fuel st n d k :
  clamped st n -> (10 <= fuel)%nat ->
  exists st', generatePoints fuel st d k = (Some st', (k + 2 * n)%nat) /\
              length (points st') = n.
Proof.
  intros Hc Hfuel. eexists. split; [apply clamped_run; assumption|].
  rewrite threshold_length. apply samples_length.
Qed.

Lemma generate_length_witness :
  clamped (with_inputs one_half 100) 100 /\
  (10 <= 10)%nat /\
  (exists st', generatePoints 10 (with_inputs one_half 100) demo_draws 0%nat
              = (Some st', (0 + 2 * 100)%nat) /\
              length (points st') = 100%nat).
Proof.
  split; [exact demo_clamped|].
  split; [apply Nat.le_refl|].
  apply (generate_length 10 (with_inputs one_half 100) 100 demo_draws 0%nat);
    [ exact demo_clamped
    | apply Nat.le_refl ].
Defined.

(** C1.  On the clamped domain, the number of points with [selected = true]
    is [floor(numPoints * targetValue) + 1] clamped to [0, numPoints], where
    the floor is that of the product computed by the routine; the floor
    itself lies in [0, numPoints]. *)
Theorem selected_count_is_cutoff_plus_one fuel st n d k :
  clamped st n -> (10 <= fuel)%nat ->
  exists st' z,
    generatePoints fuel st d k = (Some st', (k + 2 * n)%nat) /\
    floorZ (js_mul (num_of_nat n) (targetValue st)) = Some z /\
    0 <= z <= Z.of_nat n /\
    selected_count (points st') = clamp_count z n.
Proof.
  intros Hc Hfuel. destruct (clamped_cutoff st n Hc) as (z & Hz & Hfl & Hint & Hzn).
  exists (threshold st (samples d k n)), z.
  split; [apply clamped_run; assumption|]. split; [exact Hfl|]. split; [lia|].
  destruct Hc as (_ & Hn & _).
  rewrite (threshold_selected_count st (samples d k n) z); rewrite ?samples_length;
    auto; lia.
Qed.

Lemma selected_count_is_cutoff_plus_one_witness :
  clamped (with_inputs one_half 100) 100 /\
  (10 <= 10)%nat /\
  (exists st' z,
    generatePoints 10 (with_inputs one_half 100) demo_draws 0%nat
    = (Some st', (0 + 2 * 100)%nat) /\
    floorZ (js_mul (num_of_nat 100) (targetValue (with_inputs one_half 100))) = Some z /\
    0 <= z <= Z.of_nat 100 /\
    selected_count (points st') = clamp_count z 100).
Proof.
  split; [exact demo_clamped|].
  split; [apply Nat.le_refl|].
  apply (selected_count_is_cutoff_plus_one 10 (with_inputs one_half 100) 100 demo_draws 0%nat);
    [ exact demo_clamped
    | apply Nat.le_refl ].
Defined.

(** C2.  On the clamped domain [approximatedSqrt] is the [max] field of the
    element at index [floor(numPoints * targetValue)] of the ordered sequence
    when that index is within bounds, and the fallback [0] otherwise; the
    routine returns in both cases. *)
Theorem estimate_is_max_at_cutoff fuel st n d k :
  clamped st n -> uniform d -> (10 <= fuel)%nat ->
  exists st' z,
    generatePoints fuel st d k = (Some st', (k + 2 * n)%nat) /\
    floorZ (js_mul (num_of_nat n) (targetValue st)) = Some z /\
    0 <= z <= Z.of_nat n /\
    (z < Z.of_nat n ->
       exists p, nth_error (points st') (Z.to_nat z) = Some p /\
                 approximatedSqrt st' = Point.max p) /\
    (Z.of_nat n <= z -> approximatedSqrt st' = S754_zero false).
Proof.
  intros Hc Hd Hfuel. destruct (clamped_cutoff st n Hc) as (z & Hz & Hfl & Hint & Hzn).
  exists (threshold st (samples d k n)), z.
  split; [apply clamped_run; assumption|]. split; [exact Hfl|]. split; [lia|].
  destruct Hc as (_ & Hn & _).
  pose proof (threshold_estimate st (samples d k n) z) as He.
  rewrite samples_length in He. specialize (He Hint Hz ltac:(lia)).
  pose proof (threshold_length st (samples d k n)) as Hlen. rewrite samples_length in Hlen.
  split.
  - intros Hlt.
    destruct (nth_error (points (threshold st (samples d k n))) (Z.to_nat z)) as [p|] eqn:Hp.
    + exists p. split; [reflexivity|]. rewrite He.
      destruct (threshold_nth _ _ _ _ Hp) as (r & Hr & ->). cbn [select Point.max].
      assert (Hwf : well_formed_sample r).
      { pose proof (samples_well_formed d k n Hd) as Hall.
        eapply Permutation_Forall in Hall; [|symmetry; apply (Array_sort_perm Raw.t Raw.max)].
        rewrite Forall_forall in Hall. apply Hall. eapply nth_error_In; exact Hr. }
      destruct (well_formed_max r Hwf) as [Hrv _].
      destruct (random_value_range _ Hrv) as (_ & _ & _ & Ht).
      destruct (truthy (Raw.max r)); [reflexivity|symmetry; exact Ht].
    + apply nth_error_None in Hp. lia.
  - intros Hge. rewrite He.
    replace (nth_error _ _) with (@None Point.t); [reflexivity|].
    symmetry. apply nth_error_None. lia.
Qed.

Lemma estimate_is_max_at_cutoff_witness :
  clamped (with_inputs one_half 100) 100 /\
  uniform demo_draws /\
  (10 <= 10)%nat /\
  (exists st' z,
    generatePoints 10 (with_inputs one_half 100) demo_draws 0%nat
    = (Some st', (0 + 2 * 100)%nat) /\
    floorZ (js_mul (num_of_nat 100) (targetValue (with_inputs one_half 100))) = Some z /\
    0 <= z <= Z.of_nat 100 /\
    (z < Z.of_nat 100 ->
       exists p, nth_error (points st') (Z.to_nat z) = Some p /\
                 approximatedSqrt st' = Point.max p) /\
    (Z.of_nat 100 <= z -> approximatedSqrt st' = S754_zero false)).
Proof.
  split; [exact demo_clamped|].
  split; [exact demo_draws_uniform|].
  split; [apply Nat.le_refl|].
  apply (estimate_is_max_at_cutoff 10 (with_inputs one_half 100) 100 demo_draws 0%nat);
    [ exact demo_clamped
    | exact demo_draws_uniform
    | apply Nat.le_refl ].
Defined.

(** C4.  On the clamped domain the returned sequence is ordered
    non-decreasingly by [max]: an element never has a larger [max] than a
    later one. *)
Theorem points_sorted_by_max fuel st n d k :
  clamped st n -> uniform d -> (10 <= fuel)%nat ->
  exists st',
    generatePoints fuel st d k = (Some st', (k + 2 * n)%nat) /\
    forall i j p q, (i <= j)%nat ->
      nth_error (points st') i = Some p -> nth_error (points st') j = Some q ->
      js_le (Point.max p) (Point.max q) = true.
Proof.
  intros Hc Hd Hfuel. eexists. split; [apply clamped_run; assumption|].
  intros i j p q. apply threshold_sorted_nth. apply samples_well_formed, Hd.
Qed.

Lemma points_sorted_by_max_witness :
  clamped (with_inputs one_half 100) 100 /\
  uniform demo_draws /\
  (10 <= 10)%nat /\
  (exists st',
    generatePoints 10 (with_inputs one_half 100) demo_draws 0%nat
    = (Some st', (0 + 2 * 100)%nat) /\
    forall i j p q, (i <= j)%nat ->
      nth_error (points st') i = Some p -> nth_error (points st') j = Some q ->
      js_le (Point.max p) (Point.max q) = true).
Proof.
  split; [exact demo_clamped|].
  split; [exact demo_draws_uniform|].
  split; [apply Nat.le_refl|].
  apply (points_sorted_by_max 10 (with_inputs one_half 100) 100 demo_draws 0%nat);
    [ exact demo_clamped
    | exact demo_draws_uniform
    | apply Nat.le_refl ].
Defined.

Lemma map_from_In {A B} (f : A -> nat -> B) l : forall i b,
  In b (map_from f i l) -> exists a j, In a l /\ b = f a j.
Proof.
  induction l as [|a l IH]; intros i b; cbn [map_from In]; [tauto|].
  intros [<-|H].
  - exists a, i. auto.
  - destruct (IH _ _ H) as (a' & j & Ha & ->). exists a', j. auto.
Qed.

(** C7.  Every returned point carries [max = Math.max(x, y)], and its
    coordinates, drawn by [Math.random], lie in [0, 1]. *)
Theorem points_max_and_range fuel st n d k :
  clamped st n -> uniform d -> (10 <= fuel)%nat ->
  exists st',
    generatePoints fuel st d k = (Some st', (k + 2 * n)%nat) /\
    Forall (fun p =>
              Point.max p = Math_max (Point.x p) (Point.y p) /\
              js_le (num_of_Z 0) (Point.x p) = true /\ js_le (Point.x p) (num_of_Z 1) = true /\
              js_le (num_of_Z 0) (Point.y p) = true /\ js_le (Point.y p) (num_of_Z 1) = true)
           (points st').
Proof.
  intros Hc Hd Hfuel. eexists. split; [apply clamped_run; assumption|].
  rewrite threshold_points. apply Forall_forall. intros p Hp.
  destruct (map_from_In _ _ _ _ Hp) as (r & j & Hr & ->). cbn [select Point.x Point.y Point.max].
  pose proof (samples_well_formed d k n Hd) as Hall.
  eapply Permutation_Forall in Hall; [|symmetry; apply (Array_sort_perm Raw.t Raw.max)].
  rewrite Forall_forall in Hall. destruct (Hall r Hr) as (Hx & Hy & Hm).
  destruct (random_value_range _ Hx) as (_ & Hx0 & Hx1 & _).
  destruct (random_value_range _ Hy) as (_ & Hy0 & Hy1 & _).
  repeat split; assumption.
Qed.

Lemma points_max_and_range_witness :
  clamped (with_inputs one_half 100) 100 /\
  uniform demo_draws /\
  (10 <= 10)%nat /\
  (exists st',
    generatePoints 10 (with_inputs one_half 100) demo_draws 0%nat
    = (Some st', (0 + 2 * 100)%nat) /\
    Forall (fun p =>
              Point.max p = Math_max (Point.x p) (Point.y p) /\
              js_le (num_of_Z 0) (Point.x p) = true /\ js_le (Point.x p) (num_of_Z 1) = true /\
              js_le (num_of_Z 0) (Point.y p) = true /\ js_le (Point.y p) (num_of_Z 1) = true)
           (points st')).
Proof.
  split; [exact demo_clamped|].
  split; [exact demo_draws_uniform|].
  split; [apply Nat.le_refl|].
  apply (points_max_and_range 10 (with_inputs one_half 100) 100 demo_draws 0%nat);
    [ exact demo_clamped
    | exact demo_draws_uniform
    | apply Nat.le_refl ].
Defined.

(** C10.  The selected points are a prefix of the ordered sequence: a point
    is selected exactly when its rank is at most the cut-off, and a selected
    point never has a larger [max] than one that is not selected. *)
Theorem selected_points_form_prefix fuel st n d k :
  clamped st n -> uniform d -> (10 <= fuel)%nat ->
  exists st' z,
    generatePoints fuel st d k = (Some st', (k + 2 * n)%nat) /\
    floorZ (js_mul (num_of_nat n) (targetValue st)) = Some z /\
    (forall i p, nth_error (points st') i = Some p ->
                 Point.selected p = (Z.of_nat i <=? z)) /\
    (forall p q, In p (points st') -> In q (points st') ->
                 Point.selected p = true -> Point.selected q = false ->
                 js_le (Point.max p) (Point.max q) = true).
Proof.
  intros Hc Hd Hfuel. destruct (clamped_cutoff st n Hc) as (z & Hz & Hfl & Hint & Hzn).
  exists (threshold st (samples d k n)), z.
  split; [apply clamped_run; assumption|]. split; [exact Hfl|].
  destruct Hc as (_ & Hn & _).
  assert (Hsel : forall i p,
             nth_error (points (threshold st (samples d k n))) i = Some p ->
             Point.selected p = (Z.of_nat i <=? z)).
  { intros i p. apply threshold_selected; rewrite ?samples_length; auto; lia. }
  split; [exact Hsel|].
  intros p q Hp Hq Sp Sq.
  apply In_nth_error in Hp, Hq. destruct Hp as [i Hi], Hq as [j Hj].
  rewrite (Hsel _ _ Hi) in Sp. rewrite (Hsel _ _ Hj) in Sq.
  apply Z.leb_le in Sp. apply Z.leb_gt in Sq.
  eapply threshold_sorted_nth; [apply samples_well_formed, Hd| |exact Hi|exact Hj]. lia.
Qed.

Lemma selected_points_form_prefix_witness :
  clamped (with_inputs one_half 100) 100 /\
  uniform demo_draws /\
  (10 <= 10)%nat /\
  (exists st' z,
    generatePoints 10 (with_inputs one_half 100) demo_draws 0%nat
    = (Some st', (0 + 2 * 100)%nat) /\
    floorZ (js_mul (num_of_nat 100) (targetValue (with_inputs one_half 100))) = Some z /\
    (forall i p, nth_error (points st') i = Some p ->
                 Point.selected p = (Z.of_nat i <=? z)) /\
    (forall p q, In p (points st') -> In q (points st') ->
                 Point.selected p = true -> Point.selected q = false ->
                 js_le (Point.max p) (Point.max q) = true)).
Proof.
  split; [exact demo_clamped|].
  split; [exact demo_draws_uniform|].
  split; [apply Nat.le_refl|].
  apply (selected_points_form_prefix 10 (with_inputs one_half 100) 100 demo_draws 0%nat);
    [ exact demo_clamped
    | exact demo_draws_uniform
    | apply Nat.le_refl ].
Defined.

(** C6.  Generating the points in chunks of 1000 yields the same component
    state (point sequence, [approximatedSqrt], [actualSqrt]) and reads the
    same draws as generating all of them in a single pass. *)
Theorem chunked_generation_is_single_pass fuel st n d k :
  clamped st n -> (10 <= fuel)%nat ->
  generatePoints fuel st d k
  = (Some (fst (generatePoints_single_pass st d k)),
     snd (generatePoints_single_pass st d k)).
Proof.
  intros Hc Hfuel. rewrite (clamped_run fuel st n d k Hc Hfuel).
  destruct Hc as (Hnum & Hn & _).
  rewrite (generatePoints_single_pass_spec st n d k Hnum) by lia. reflexivity.
Qed.

Lemma chunked_generation_is_single_pass_witness :
  clamped (with_inputs one_half 2500) 2500 /\
  (10 <= 10)%nat /\
  (generatePoints 10 (with_inputs one_half 2500) demo_draws 0%nat
  = (Some (fst (generatePoints_single_pass (with_inputs one_half 2500) demo_draws 0%nat)),
     snd (generatePoints_single_pass (with_inputs one_half 2500) demo_draws 0%nat))).
Proof.
  assert (Hc : clamped (with_inputs one_half 2500) 2500)
    by (repeat split; try reflexivity; discriminate).
  split; [exact Hc|].
  split; [apply Nat.le_refl|].
  apply (chunked_generation_is_single_pass 10 (with_inputs one_half 2500) 2500 demo_draws 0%nat);
    [ exact Hc
    | apply Nat.le_refl ].
Defined.

(** ** The input handlers *)

Lemma clamp_target_range v : is_NaN v = false ->
  let t := Math_max (num_of_Z 0) (Math_min (num_of_Z 1) v) in
  js_le (num_of_Z 0) t = true /\ js_le t (num_of_Z 1) = true.
Proof.
  intros Hv. destruct v as [[]|[]| |s m e]; try discriminate; try (split; reflexivity).
  change (num_of_Z 0) with (S754_zero false).
  change (num_of_Z 1) with (S754_finite false 4503599627370496 (-52)).
  cbn [Math_min]. cbv zeta.
  destruct (js_lt (S754_finite s m e) (S754_finite false 4503599627370496 (-52))) eqn:Hlt;
    [|split; reflexivity].
  destruct s; [split; reflexivity|]. cbn [Math_max].
  replace (js_lt (S754_zero false) (S754_finite false m e)) with true by reflexivity.
  split; [reflexivity|apply js_lt_le; exact Hlt].
Qed.

Lemma clamp_points_range v : is_NaN v = false ->
  let n := Math_max (num_of_Z 100) (Math_min (num_of_Z 10000) v) in
  js_le (num_of_Z 100) n = true /\ js_le n (num_of_Z 10000) = true.
Proof.
  intros Hv. destruct v as [[]|[]| |s m e]; try discriminate; try (split; reflexivity).
  change (num_of_Z 100) with (S754_finite false 7036874417766400 (-46)).
  change (num_of_Z 10000) with (S754_finite false 5497558138880000 (-39)).
  cbn [Math_min]. cbv zeta.
  destruct (js_lt (S754_finite s m e) (S754_finite false 5497558138880000 (-39))) eqn:Hlt;
    [|split; reflexivity].
  cbn [Math_max].
  destruct (js_lt (S754_finite false 7036874417766400 (-46)) (S754_finite s m e)) eqn:Hgt;
    [|split; reflexivity].
  split; apply js_lt_le; assumption.
Qed.

(** The order of Numbers is antisymmetric. *)
Lemma SFcompare_antisym a b : SFcompare b a = option_map CompOpp (SFcompare a b).
Proof.
  destruct a as [sa|sa| |sa ma ea], b as [sb|sb| |sb mb eb];
    try destruct sa; try destruct sb; try reflexivity;
    cbn [SFcompare option_map]; rewrite (Z.compare_antisym ea eb);
    destruct (ea ?= eb); cbn [CompOpp]; try reflexivity;
    rewrite (Pos.compare_cont_antisym ma mb Eq); reflexivity.
Qed.

Lemma js_le_not_lt a b : js_le a b = true -> js_lt b a = false.
Proof.
  unfold js_le, js_lt, SFleb, SFltb. rewrite (SFcompare_antisym a b).
  destruct (SFcompare a b) as [[]|]; cbn; congruence.
Qed.

Lemma js_lt_not_lt a b : js_lt a b = true -> js_lt b a = false.
Proof. intros H. apply js_le_not_lt, js_lt_le, H. Qed.

(** Above a finite bound [Math.min] returns the bound. *)
Lemma Math_min_above s m e v :
  js_lt (S754_finite s m e) v = true ->
  Math_min (S754_finite s m e) v = S754_finite s m e.
Proof.
  intros H. apply js_lt_not_lt in H as H'.
  destruct v as [sv|sv| |sv mv ev]; try discriminate H; cbn [Math_min]; rewrite H';
    reflexivity.
Qed.

(** Comparing a positive Number with a positive constant, by exponent first. *)
Lemma compare_positive m e mc ec :
  SFcompare (S754_finite false m e) (S754_finite false mc ec)
  = Some (match e ?= ec with Eq => Pos.compare m mc | c => c end) /\
  SFcompare (S754_finite false mc ec) (S754_finite false m e)
  = Some (CompOpp (match e ?= ec with Eq => Pos.compare m mc | c => c end)).
Proof.
  cbn [SFcompare]. rewrite (Z.compare_antisym e ec).
  change (Pos.compare_cont Eq mc m) with (Pos.compare mc m).
  rewrite (Pos.compare_antisym m mc).
  destruct (e ?= ec); split; reflexivity.
Qed.

Lemma compare_positive_eq m e mc ec :
  match e ?= ec with Eq => Pos.compare m mc | c => c end = Eq ->
  S754_finite false m e = S754_finite false mc ec.
Proof.
  destruct (Z.compare_spec e ec) as [->|H|H]; try discriminate.
  intros E. apply Pos.compare_eq in E. subst. reflexivity.
Qed.

Lemma clamp_target_is_saturate v :
  Math_max (num_of_Z 0) (Math_min (num_of_Z 1) v) = saturate (num_of_Z 0) (num_of_Z 1) v.
Proof.
  destruct v as [[]|[]| |s m e]; try reflexivity.
  destruct s; [reflexivity|].
  change (num_of_Z 0) with (S754_zero false).
  change (num_of_Z 1) with (S754_finite false 4503599627370496 (-52)).
  unfold saturate. cbn [is_NaN Math_min].
  replace (js_lt (S754_finite false m e) (S754_zero false)) with false by reflexivity.
  unfold js_lt, SFltb.
  destruct (compare_positive m e 4503599627370496 (-52)) as [-> ->].
  pose proof (compare_positive_eq m e 4503599627370496 (-52)) as Heq.
  destruct (match e ?= -52 with Eq => Pos.compare m 4503599627370496 | c => c end);
    cbn [CompOpp Math_max]; try reflexivity.
  symmetry. apply Heq. reflexivity.
Qed.

Lemma exponent_order e (c1 c2 : comparison) :
  match e ?= -39 with Eq => c1 | c => c end <> Lt ->
  match e ?= -46 with Eq => c2 | c => c end = Gt.
Proof.
  destruct (Z.compare_spec e (-39)) as [->|H|H]; [reflexivity|congruence|].
  intros _. destruct (Z.compare_spec e (-46)); [lia|lia|reflexivity].
Qed.

Lemma clamp_points_is_saturate v :
  Math_max (num_of_Z 100) (Math_min (num_of_Z 10000) v)
  = saturate (num_of_Z 100) (num_of_Z 10000) v.
Proof.
  destruct v as [[]|[]| |s m e]; try reflexivity.
  destruct s; [reflexivity|].
  change (num_of_Z 100) with (S754_finite false 7036874417766400 (-46)).
  change (num_of_Z 10000) with (S754_finite false 5497558138880000 (-39)).
  assert (Hlh : SFcompare (S754_finite false 7036874417766400 (-46))
                          (S754_finite false 5497558138880000 (-39)) = Some Lt)
    by reflexivity.
  unfold saturate. cbn [is_NaN Math_min]. unfold js_lt, SFltb.
  destruct (compare_positive m e 5497558138880000 (-39)) as [H1 H2].
  destruct (compare_positive m e 7036874417766400 (-46)) as [L1 L2].
  pose proof (compare_positive_eq m e 5497558138880000 (-39)) as Hhi.
  pose proof (compare_positive_eq m e 7036874417766400 (-46)) as Hlo.
  pose proof (exponent_order e (Pos.compare m 5497558138880000)
                             (Pos.compare m 7036874417766400)) as Hord.
  rewrite H1, H2, L1.
  destruct (match e ?= -39 with Eq => Pos.compare m 5497558138880000 | c => c end).
  - rewrite (Hord ltac:(discriminate)). rewrite (Hhi eq_refl).
    cbn [CompOpp Math_max]. unfold js_lt, SFltb. rewrite Hlh. reflexivity.
  - cbn [CompOpp Math_max]. unfold js_lt, SFltb. rewrite L2.
    destruct (match e ?= -46 with Eq => Pos.compare m 7036874417766400 | c => c end);
      cbn [CompOpp]; try reflexivity.
    rewrite (Hlo eq_refl). reflexivity.
  - rewrite (Hord ltac:(discriminate)).
    cbn [CompOpp Math_max]. unfold js_lt, SFltb. rewrite Hlh. reflexivity.
Qed.

(** C8.  The input handlers clamp before they call [generatePoints].  For
    every numeric input (any Number other than NaN, the infinities included)
    [handleTargetInput] passes a [targetValue] of [0, 1]: 0 for an input
    below 0, 1 for an input above 1, and the input itself when it lies in
    [0, 1] (a negative zero as +0).  [handlePointsInput] passes a
    [numPoints] of [100, 10000]: 100 for an input below 100, 10000 for an
    input above 10000, and the input itself when it lies in
    [100, 10000]. *)
Theorem handlers_clamp_inputs fuel st :
  is_NaN (tempTargetValue st) = false -> is_NaN (tempNumPoints st) = false ->
  (handleTargetInput fuel st = generatePoints fuel (clampTarget st) /\
   js_le (num_of_Z 0) (targetValue (clampTarget st)) = true /\
   js_le (targetValue (clampTarget st)) (num_of_Z 1) = true /\
   (js_lt (tempTargetValue st) (num_of_Z 0) = true ->
    targetValue (clampTarget st) = num_of_Z 0) /\
   (js_lt (num_of_Z 1) (tempTargetValue st) = true ->
    targetValue (clampTarget st) = num_of_Z 1) /\
   (js_le (num_of_Z 0) (tempTargetValue st) = true ->
    js_le (tempTargetValue st) (num_of_Z 1) = true ->
    targetValue (clampTarget st)
    = match tempTargetValue st with
      | S754_zero _ => S754_zero false
      | _ => tempTargetValue st
      end)) /\
  (handlePointsInput fuel st = generatePoints fuel (clampPoints st) /\
   js_le (num_of_Z 100) (numPoints (clampPoints st)) = true /\
   js_le (numPoints (clampPoints st)) (num_of_Z 10000) = true /\
   (js_lt (tempNumPoints st) (num_of_Z 100) = true ->
    numPoints (clampPoints st) = num_of_Z 100) /\
   (js_lt (num_of_Z 10000) (tempNumPoints st) = true ->
    numPoints (clampPoints st) = num_of_Z 10000) /\
   (js_le (num_of_Z 100) (tempNumPoints st) = true ->
    js_le (tempNumPoints st) (num_of_Z 10000) = true ->
    numPoints (clampPoints st) = tempNumPoints st)).
Proof.
  intros Ht Hn. split; (split; [reflexivity|]).
  - split; [apply clamp_target_range; assumption|].
    split; [apply clamp_target_range; assumption|].
    unfold clampTarget. cbn [targetValue]. split; [|split].
    + intros Hlo. rewrite clamp_target_is_saturate. unfold saturate.
      rewrite Ht, Hlo. reflexivity.
    + intros Hhi. change (num_of_Z 1) with (S754_finite false 4503599627370496 (-52)) in *.
      rewrite Math_min_above by exact Hhi. reflexivity.
    + intros Hlo Hhi. rewrite clamp_target_is_saturate. unfold saturate.
      rewrite Ht, (js_le_not_lt _ _ Hlo), (js_le_not_lt _ _ Hhi). reflexivity.
  - split; [apply clamp_points_range; assumption|].
    split; [apply clamp_points_range; assumption|].
    unfold clampPoints. cbn [numPoints]. split; [|split].
    + intros Hlo. rewrite clamp_points_is_saturate. unfold saturate.
      rewrite Hn, Hlo. reflexivity.
    + intros Hhi. change (num_of_Z 10000) with (S754_finite false 5497558138880000 (-39)) in *.
      rewrite Math_min_above by exact Hhi. reflexivity.
    + intros Hlo Hhi. rewrite clamp_points_is_saturate. unfold saturate.
      rewrite Hn, (js_le_not_lt _ _ Hlo), (js_le_not_lt _ _ Hhi).
      destruct (tempNumPoints st) as [s|s| |s m e]; try reflexivity.
      destruct s; discriminate Hlo.
Qed.

Lemma handlers_clamp_inputs_witness :
  is_NaN (tempTargetValue out_of_range) = false /\
  is_NaN (tempNumPoints out_of_range) = false /\
  ((handleTargetInput 10 out_of_range = generatePoints 10 (clampTarget out_of_range) /\
   js_le (num_of_Z 0) (targetValue (clampTarget out_of_range)) = true /\
   js_le (targetValue (clampTarget out_of_range)) (num_of_Z 1) = true /\
   (js_lt (tempTargetValue out_of_range) (num_of_Z 0) = true ->
    targetValue (clampTarget out_of_range) = num_of_Z 0) /\
   (js_lt (num_of_Z 1) (tempTargetValue out_of_range) = true ->
    targetValue (clampTarget out_of_range) = num_of_Z 1) /\
   (js_le (num_of_Z 0) (tempTargetValue out_of_range) = true ->
    js_le (tempTargetValue out_of_range) (num_of_Z 1) = true ->
    targetValue (clampTarget out_of_range)
    = match tempTargetValue out_of_range with
      | S754_zero _ => S754_zero false
      | _ => tempTargetValue out_of_range
      end)) /\
  (handlePointsInput 10 out_of_range = generatePoints 10 (clampPoints out_of_range) /\
   js_le (num_of_Z 100) (numPoints (clampPoints out_of_range)) = true /\
   js_le (numPoints (clampPoints out_of_range)) (num_of_Z 10000) = true /\
   (js_lt (tempNumPoints out_of_range) (num_of_Z 100) = true ->
    numPoints (clampPoints out_of_range) = num_of_Z 100) /\
   (js_lt (num_of_Z 10000) (tempNumPoints out_of_range) = true ->
    numPoints (clampPoints out_of_range) = num_of_Z 10000) /\
   (js_le (num_of_Z 100) (tempNumPoints out_of_range) = true ->
    js_le (tempNumPoints out_of_range) (num_of_Z 10000) = true ->
    numPoints (clampPoints out_of_range) = tempNumPoints out_of_range))).
Proof.
  split; [reflexivity|].
  split; [reflexivity|].
  apply (handlers_clamp_inputs 10 out_of_range);
    [ reflexivity
    | reflexivity ].
Defined.

(** ** The upper end of the domain *)

Lemma js_mul_one n : 0 < n < 2 ^ 53 -> js_mul (num_of_Z n) (num_of_Z 1) = num_of_Z n.
Proof.
  intros Hn. assert (Hd : Zdigits2 n <= 53) by (apply Zdigits2_le; lia).
  pose proof (Zdigits2_pos n ltac:(lia)) as Hd0.
  change (num_of_Z 1) with (S754_finite false 4503599627370496 (-52)).
  rewrite num_of_Z_pos by lia. unfold int_float at 1. cbn [js_mul SFmul xorb].
  destruct (int_float_mantissa n ltac:(lia) Hd) as [Hm _].
  apply binary_round_aux_int; try lia.
  rewrite Pos2Z.inj_mul, Hm.
  replace (- (Zdigits2 n - 53 + -52)) with ((53 - Zdigits2 n) + 52) by lia.
  rewrite Z.pow_add_r by lia. change (2 ^ 52) with 4503599627370496. lia.
Qed.

Lemma Math_floor_int n : 0 <= n < 2 ^ 53 -> Math_floor (num_of_Z n) = num_of_Z n.
Proof.
  intros Hn. destruct (Z.eq_dec n 0) as [->|Hnz]; [reflexivity|].
  assert (Hd : Zdigits2 n <= 53) by (apply Zdigits2_le; lia).
  rewrite num_of_Z_pos by lia. unfold int_float at 1. cbn [Math_floor cond_Zopp].
  destruct (Z.leb_spec 0 (Zdigits2 n - 53)); [reflexivity|].
  rewrite int_float_value by lia. apply num_of_Z_pos; lia.
Qed.

Lemma cutoffIndex_one n : 0 < Z.of_nat n < 2 ^ 53 ->
  cutoffIndex n (num_of_Z 1) = num_of_nat n.
Proof.
  intros Hn. unfold cutoffIndex, num_of_nat. rewrite js_mul_one by lia.
  apply Math_floor_int. lia.
Qed.

(** C9.  With [targetValue = 1] and [numPoints >= 1] (an array length, so
    below 2^32) the cut-off index equals [numPoints] and is out of bounds:
    [approximatedSqrt] is the fallback 0, every point is selected and
    [actualSqrt] is 1. *)
Theorem target_one_yields_zero_estimate fuel st n d k :
  numPoints st = num_of_nat n -> targetValue st = num_of_Z 1 ->
  1 <= Z.of_nat n < 2 ^ 32 -> (n <= 1000 * fuel)%nat ->
  exists st',
    generatePoints fuel st d k = (Some st', (k + 2 * n)%nat) /\
    length (points st') = n /\
    cutoffIndex n (targetValue st) = num_of_nat n /\
    array_get (points st') (cutoffIndex n (targetValue st)) = None /\
    approximatedSqrt st' = S754_zero false /\
    Forall (fun p => Point.selected p = true) (points st') /\
    actualSqrt st' = num_of_Z 1.
Proof.
  intros Hnum Ht Hn Hfuel.
  exists (threshold st (samples d k n)).
  split; [apply generatePoints_spec; auto; lia|].
  pose proof (threshold_length st (samples d k n)) as Hlen. rewrite samples_length in Hlen.
  split; [exact Hlen|].
  assert (Hc : cutoffIndex n (targetValue st) = num_of_nat n)
    by (rewrite Ht; apply cutoffIndex_one; lia).
  assert (Hint : int_valued (cutoffIndex (length (samples d k n)) (targetValue st))
                            (Z.of_nat n)).
  { rewrite samples_length, Hc. left. reflexivity. }
  assert (Hget : array_get (points (threshold st (samples d k n)))
                           (cutoffIndex n (targetValue st)) = None).
  { rewrite samples_length in Hint.
    rewrite (array_get_int_valued _ _ (Z.of_nat n) Hint) by (rewrite ?Hlen; lia).
    apply nth_error_None. lia. }
  repeat split.
  - exact Hc.
  - exact Hget.
  - rewrite (threshold_estimate st (samples d k n) (Z.of_nat n) Hint)
      by (rewrite ?samples_length; lia).
    replace (nth_error _ _) with (@None Point.t); [reflexivity|].
    symmetry. apply nth_error_None. lia.
  - apply Forall_forall. intros p Hp. apply In_nth_error in Hp. destruct Hp as [i Hi].
    rewrite (threshold_selected st (samples d k n) (Z.of_nat n) i p Hint)
      by (rewrite ?samples_length; auto; lia).
    apply Z.leb_le. assert (i < n)%nat by (rewrite <- Hlen; apply nth_error_Some; congruence).
    lia.
  - unfold threshold. cbn [actualSqrt]. rewrite Ht. reflexivity.
Qed.

Lemma target_one_yields_zero_estimate_witness :
  numPoints (with_inputs (num_of_Z 1) 100) = num_of_nat 100 /\
  targetValue (with_inputs (num_of_Z 1) 100) = num_of_Z 1 /\
  1 <= Z.of_nat 100 < 2 ^ 32 /\
  (100 <= 1000 * 10)%nat /\
  (exists st',
    generatePoints 10 (with_inputs (num_of_Z 1) 100) demo_draws 0%nat
    = (Some st', (0 + 2 * 100)%nat) /\
    length (points st') = 100%nat /\
    cutoffIndex 100 (targetValue (with_inputs (num_of_Z 1) 100)) = num_of_nat 100 /\
    array_get (points st') (cutoffIndex 100 (targetValue (with_inputs (num_of_Z 1) 100))) = None /\
    approximatedSqrt st' = S754_zero false /\
    Forall (fun p => Point.selected p = true) (points st') /\
    actualSqrt st' = num_of_Z 1).
Proof.
  split; [reflexivity|].
  split; [reflexivity|].
  split; [split; [discriminate|reflexivity]|].
  split; [apply Nat.leb_le; reflexivity|].
  apply (target_one_yields_zero_estimate 10 (with_inputs (num_of_Z 1) 100) 100 demo_draws 0%nat);
    [ reflexivity
    | reflexivity
    | split; [discriminate|reflexivity]
    | apply Nat.leb_le; reflexivity ].
Defined.

(** ** The cut-off of the two variants *)

(** The page's routine selects and reads its estimate at
    [Math.floor(numPoints * targetValue)]. *)
Lemma generatePoints_cutoff fuel st n d k :
  clamped st n -> (10 <= fuel)%nat ->
  exists st',
    generatePoints fuel st d k = (Some st', (k + 2 * n)%nat) /\
    let cutoff := Math_floor (js_mul (num_of_nat n) (targetValue st)) in
    points st' = Array_map (select cutoff) (Array_sort by_max (samples d k n)) /\
    approximatedSqrt st' = max_at_or_zero (points st') cutoff.
Proof.
  intros Hc Hfuel. eexists. split; [apply clamped_run; assumption|].
  cbv zeta. rewrite threshold_points, samples_length. split; [reflexivity|].
  unfold threshold. cbn [approximatedSqrt]. rewrite sorted_length, samples_length.
  reflexivity.
Qed.

Lemma Unchunked_Array_from d n : forall k,
  Array_from n Unchunked.newPoint d k = (map unselected (samples d k n), (k + 2 * n)%nat).
Proof.
  induction n as [|n IH]; intros k.
  - cbn [Array_from]. unfold ret, samples. cbn [seq map]. f_equal. lia.
  - rewrite samples_cons. cbn [Array_from map]. unfold bind at 1.
    change (Unchunked.newPoint d k) with (unselected (sample_at d k), S (S k)).
    unfold bind at 1. rewrite IH. unfold ret. f_equal; [|lia].
    do 3 f_equal. lia.
Qed.

(** Both variants order the same samples in the same way: their point
    sequences agree on [x], [y] and [max] and can differ in the flags only. *)
Lemma insert_unselected a l :
  insert Unchunked.by_max (unselected a) (map unselected l)
  = map unselected (insert by_max a l).
Proof.
  induction l as [|b l IH]; [reflexivity|]. cbn [map insert].
  change (Unchunked.by_max (unselected a) (unselected b)) with (by_max a b).
  destruct (js_lt (S754_zero false) (by_max a b)); cbn [map]; [rewrite IH|]; reflexivity.
Qed.

Lemma Array_sort_unselected l :
  Array_sort Unchunked.by_max (map unselected l) = map unselected (Array_sort by_max l).
Proof.
  induction l as [|a l IH]; [reflexivity|]. cbn [map Array_sort fold_right].
  fold (Array_sort Unchunked.by_max (map unselected l)). fold (Array_sort by_max l).
  rewrite IH. apply insert_unselected.
Qed.

Lemma coordinates_select c l : forall i,
  map coordinates (map_from (select c) i l) = l.
Proof.
  induction l as [|[x y m] l IH]; intros i; [reflexivity|].
  cbn [map_from map]. rewrite IH. reflexivity.
Qed.

Lemma coordinates_unchunked_select c l : forall i,
  map coordinates (map_from (Unchunked.select c) i (map unselected l)) = l.
Proof.
  induction l as [|[x y m] l IH]; intros i; [reflexivity|].
  cbn [map_from map]. rewrite IH. reflexivity.
Qed.

Lemma variants_order_the_same_samples fuel st lst n d k :
  clamped st n -> (10 <= fuel)%nat -> Unchunked.numPoints lst = num_of_nat n ->
  exists st',
    generatePoints fuel st d k = (Some st', (k + 2 * n)%nat) /\
    snd (Unchunked.generatePoints lst d k) = (k + 2 * n)%nat /\
    map coordinates (Unchunked.points (fst (Unchunked.generatePoints lst d k)))
    = map coordinates (points st').
Proof.
  intros Hc Hfuel Hl. eexists. split; [apply clamped_run; eassumption|].
  destruct Hc as (_ & Hn & _).
  unfold Unchunked.generatePoints, bind. rewrite Hl. unfold num_of_nat.
  rewrite ToLength_num_of_Z by lia. rewrite Nat2Z.id, Unchunked_Array_from.
  unfold ret. cbn [fst snd Unchunked.points]. split; [reflexivity|].
  rewrite threshold_points, Array_sort_unselected. unfold Array_map.
  rewrite coordinates_select, coordinates_unchunked_select. reflexivity.
Qed.

(** C3.  At [targetValue = 0.25] and [numPoints = 100] the page's routine
    cuts at [floor(100 * 0.25) = 25] and selects 26 points, while the
    single-pass variant of the second source file cuts at
    [floor(100 * sqrt(0.25)) = 50] and selects 51: there the index follows
    the square root of [targetValue], not [targetValue] itself. *)
Theorem unchunked_cutoff_follows_sqrt :
  floorZ (js_mul (num_of_nat 100) one_quarter) = Some 25 /\
  cutoffIndex 100 one_quarter = num_of_Z 25 /\
  Unchunked.cutoffIndex 100 one_quarter = num_of_Z 50 /\
  option_map (fun st => selected_count (points st))
    (fst (generatePoints 10 (with_inputs one_quarter 100) demo_draws 0%nat)) = Some 26%nat /\
  selected_count
    (Unchunked.points (fst (Unchunked.generatePoints unchunked_quarter demo_draws 0%nat)))
  = 51%nat.
Proof. vm_compute. repeat split. Qed.

(** ** The degenerate case: no points *)

Lemma array_get_nil {A} (c : number) : array_get (@nil A) c = None.
Proof.
  unfold array_get. destruct (array_index c) as [[|j]|]; reflexivity.
Qed.

(** With [numPoints = 0] the routine does not fail for any [targetValue],
    NaN included: no point is generated and the estimate is the fallback. *)
Lemma no_points_fall_back fuel st d k :
  numPoints st = num_of_Z 0 ->
  exists st',
    generatePoints fuel st d k = (Some st', k) /\
    points st' = [] /\ approximatedSqrt st' = S754_zero false.
Proof.
  intros Hnum. exists (threshold st []). split.
  - unfold generatePoints, bind. rewrite Hnum. destruct fuel; reflexivity.
  - split; [reflexivity|]. unfold threshold. cbn [approximatedSqrt Array_sort fold_right
      Array_map map_from length]. unfold max_at_or_zero. rewrite array_get_nil. reflexivity.
Qed.

(** ** The scenarios of the specification, on a fixed stream of draws *)

Example scenario_half :
  option_map (fun st => (length (points st), selected_count (points st), actualSqrt st))
    (fst (generatePoints 10 (with_inputs one_half 100) demo_draws 0%nat))
  = Some (100%nat, 51%nat, S754_finite false 6369051672525773 (-53)).
Proof. vm_compute. reflexivity. Qed.

Example scenario_zero :
  option_map (fun st => (selected_count (points st), approximatedSqrt st,
                         option_map Point.max (hd_error (points st)), actualSqrt st))
    (fst (generatePoints 10 (with_inputs (S754_zero false) 100) demo_draws 0%nat))
  = Some (1%nat, S754_finite false 1 (-1074), Some (S754_finite false 1 (-1074)),
          S754_zero false).
Proof. vm_compute. reflexivity. Qed.

Example scenario_one :
  option_map (fun st => (selected_count (points st), approximatedSqrt st, actualSqrt st))
    (fst (generatePoints 10 (with_inputs (num_of_Z 1) 100) demo_draws 0%nat))
  = Some (100%nat, S754_zero false, num_of_Z 1).
Proof. vm_compute. reflexivity. Qed.

(** The first render, from the initial state of the page: 1000 points, of
    which 501 are selected. *)
Example first_render :
  exists st',
    generatePoints 10 initial demo_draws 0%nat = (Some st', 2000%nat) /\
    length (points st') = 1000%nat /\ selected_count (points st') = 501%nat.
Proof.
  assert (Hc : clamped initial 1000) by (repeat split; try reflexivity; cbn; lia).
  exists (threshold initial (samples demo_draws 0 1000)).
  split; [apply (clamped_run 10 initial 1000 demo_draws 0 Hc); apply Nat.le_refl|].
  split; [rewrite threshold_length; apply samples_length|].
  rewrite (threshold_selected_count initial (samples demo_draws 0 1000) 500).
  - rewrite samples_length. reflexivity.
  - rewrite samples_length. left. reflexivity.
  - lia.
  - rewrite samples_length. lia.
Qed.

(** NaN is the one Number the clamping idiom lets through. *)
Example clamp_lets_NaN_through :
  Math_max (num_of_Z 0) (Math_min (num_of_Z 1) S754_nan) = S754_nan.
Proof. reflexivity. Qed.

(* ================================================================= *)
(** * Part VI. Further properties of the page *)
(* ================================================================= *)

(** ** Clamping *)

Lemma js_lt_zero_sign_l s v : js_lt (S754_zero s) v = js_lt (S754_zero false) v.
Proof. destruct v; reflexivity. Qed.

Lemma js_lt_zero_sign_r s v : js_lt v (S754_zero s) = js_lt v (S754_zero false).
Proof. destruct v; reflexivity. Qed.

Lemma saturate_idempotent lo hi v :
  saturate lo hi lo = lo -> saturate lo hi hi = hi ->
  saturate lo hi (saturate lo hi v) = saturate lo hi v.
Proof.
  intros Hlo Hhi.
  assert (E : saturate lo hi v
              = if is_NaN v then S754_nan
                else if js_lt v lo then lo
                else if js_lt hi v then hi
                else match v with S754_zero _ => S754_zero false | _ => v end)
    by reflexivity.
  destruct (is_NaN v) eqn:En; [rewrite E; reflexivity|].
  destruct (js_lt v lo) eqn:El; [rewrite E; exact Hlo|].
  destruct (js_lt hi v) eqn:Eh; [rewrite E; exact Hhi|].
  rewrite E. clear E.
  destruct v as [s|s| |s m e]; try discriminate; unfold saturate; cbn [is_NaN].
  - rewrite js_lt_zero_sign_l in El. rewrite js_lt_zero_sign_r in Eh.
    rewrite El, Eh. reflexivity.
  - rewrite El, Eh. reflexivity.
  - rewrite El, Eh. reflexivity.
Qed.

(** X1.  What the handlers commit: an input inside the range is kept (a
    negative zero becomes +0), an input below the range is replaced by the
    lower bound and one above it by the upper bound, the infinities
    included, and NaN is passed on. *)
Theorem handlers_saturate st :
  targetValue (clampTarget st)
  = saturate (num_of_Z 0) (num_of_Z 1) (tempTargetValue st) /\
  numPoints (clampPoints st)
  = saturate (num_of_Z 100) (num_of_Z 10000) (tempNumPoints st).
Proof.
  split; [apply clamp_target_is_saturate|apply clamp_points_is_saturate].
Qed.

(** X2.  Clamping is idempotent, for every input: a handler that runs again
    on the state it left commits the same inputs. *)
Theorem handlers_clamp_idempotent st :
  clampTarget (clampTarget st) = clampTarget st /\
  clampPoints (clampPoints st) = clampPoints st.
Proof.
  split.
  - unfold clampTarget. cbn [tempTargetValue numPoints points approximatedSqrt actualSqrt
      tempNumPoints]. rewrite !clamp_target_is_saturate.
    rewrite saturate_idempotent by reflexivity. reflexivity.
  - unfold clampPoints. cbn [tempTargetValue targetValue points approximatedSqrt actualSqrt
      tempNumPoints]. rewrite !clamp_points_is_saturate.
    rewrite saturate_idempotent by reflexivity. reflexivity.
Qed.

Lemma Math_max_int a b : 0 <= a < 2 ^ 53 -> 0 <= b < 2 ^ 53 ->
  Math_max (num_of_Z a) (num_of_Z b) = num_of_Z (Z.max a b).
Proof.
  intros Ha Hb.
  assert (G : (if js_lt (num_of_Z a) (num_of_Z b) then num_of_Z b else num_of_Z a)
              = num_of_Z (Z.max a b)).
  { rewrite num_of_Z_lt by assumption. destruct (Z.ltb_spec a b); f_equal; lia. }
  destruct (Z.eq_dec a 0) as [->|Hna], (Z.eq_dec b 0) as [->|Hnb].
  - reflexivity.
  - rewrite <- G. rewrite (num_of_Z_pos b) by lia. reflexivity.
  - rewrite <- G. rewrite (num_of_Z_pos a) by lia. reflexivity.
  - rewrite <- G. rewrite (num_of_Z_pos a), (num_of_Z_pos b) by lia. reflexivity.
Qed.

Lemma clamp_points_range_nat m : 100 <= Z.of_nat (clamp_points m) <= 10000.
Proof. unfold clamp_points. lia. Qed.

Lemma clampPoints_integer st m :
  tempNumPoints st = num_of_nat m -> Z.of_nat m < 2 ^ 53 ->
  numPoints (clampPoints st) = num_of_nat (clamp_points m).
Proof.
  intros Hm Hlt. unfold clampPoints. cbn [numPoints]. rewrite Hm. unfold num_of_nat.
  rewrite Math_min_int, Math_max_int by lia. f_equal. unfold clamp_points. lia.
Qed.

(** X3.  [handlePointsInput] on an integer input of any size generates
    exactly that many points, clamped to [100, 10000]; it commits the clamped
    count to [numPoints] and [tempNumPoints] and leaves [targetValue] as it
    was. *)
Theorem handlePointsInput_generates_clamped_count fuel st m d k :
  tempNumPoints st = num_of_nat m -> Z.of_nat m < 2 ^ 53 -> (10 <= fuel)%nat ->
  exists st',
    handlePointsInput fuel st d k = (Some st', (k + 2 * clamp_points m)%nat) /\
    length (points st') = clamp_points m /\
    numPoints st' = num_of_nat (clamp_points m) /\
    tempNumPoints st' = num_of_nat (clamp_points m) /\
    targetValue st' = targetValue st.
Proof.
  intros Hm Hlt Hfuel. pose proof (clamp_points_range_nat m) as Hr.
  pose proof (clampPoints_integer st m Hm Hlt) as Hnum.
  exists (threshold (clampPoints st) (samples d k (clamp_points m))).
  split; [unfold handlePointsInput; apply generatePoints_spec; auto; lia|].
  split; [rewrite threshold_length; apply samples_length|].
  unfold threshold. cbn [numPoints tempNumPoints targetValue].
  repeat split; try exact Hnum.
Qed.

Lemma handlePointsInput_generates_clamped_count_witness :
  tempNumPoints out_of_range = num_of_nat 50 /\
  Z.of_nat 50 < 2 ^ 53 /\
  (10 <= 10)%nat /\
  (exists st',
    handlePointsInput 10 out_of_range demo_draws 0%nat
    = (Some st', (0 + 2 * clamp_points 50)%nat) /\
    length (points st') = clamp_points 50 /\
    numPoints st' = num_of_nat (clamp_points 50) /\
    tempNumPoints st' = num_of_nat (clamp_points 50) /\
    targetValue st' = targetValue out_of_range).
Proof.
  split; [reflexivity|].
  split; [reflexivity|].
  split; [apply Nat.le_refl|].
  apply (handlePointsInput_generates_clamped_count 10 out_of_range 50 demo_draws 0%nat);
    [ reflexivity
    | reflexivity
    | apply Nat.le_refl ].
Defined.

Lemma saturate_target_number v : is_number v = true -> is_NaN v = false ->
  let t := saturate (num_of_Z 0) (num_of_Z 1) v in
  is_number t = true /\ js_le (num_of_Z 0) t = true /\ js_le t (num_of_Z 1) = true.
Proof.
  intros Hv Hn. cbv zeta. rewrite <- clamp_target_is_saturate.
  split; [|apply clamp_target_range; exact Hn].
  rewrite clamp_target_is_saturate. unfold saturate. rewrite Hn.
  destruct (js_lt v (num_of_Z 0)); [reflexivity|].
  destruct (js_lt (num_of_Z 1) v); [reflexivity|].
  destruct v; try reflexivity; exact Hv.
Qed.

(** The handler establishes the precondition of the routine. *)
Lemma clampTarget_clamped st n :
  numPoints st = num_of_nat n -> 100 <= Z.of_nat n <= 10000 ->
  is_number (tempTargetValue st) = true -> is_NaN (tempTargetValue st) = false ->
  clamped (clampTarget st) n.
Proof.
  intros Hnum Hn Hv Hnan. unfold clamped, clampTarget. cbn [numPoints targetValue].
  rewrite clamp_target_is_saturate.
  destruct (saturate_target_number _ Hv Hnan) as (H1 & H2 & H3). auto.
Qed.

Lemma clamp_count_bounds z n : 0 <= z -> (1 <= n)%nat ->
  (1 <= clamp_count z n <= n)%nat.
Proof. intros Hz Hn. unfold clamp_count. lia. Qed.

(** X4.  [handleTargetInput] on any well-formed input other than NaN, with
    [numPoints] an integer of [100, 10000]: the routine is called on a
    clamped state, returns [numPoints] points, and selects at least one and
    at most all of them. *)
Theorem handleTargetInput_selects_some fuel st n d k :
  numPoints st = num_of_nat n -> 100 <= Z.of_nat n <= 10000 ->
  is_number (tempTargetValue st) = true -> is_NaN (tempTargetValue st) = false ->
  (10 <= fuel)%nat ->
  exists st',
    handleTargetInput fuel st d k = (Some st', (k + 2 * n)%nat) /\
    clamped (clampTarget st) n /\
    length (points st') = n /\
    (1 <= selected_count (points st') <= n)%nat /\
    tempTargetValue st' = targetValue st'.
Proof.
  intros Hnum Hn Hv Hnan Hfuel.
  pose proof (clampTarget_clamped st n Hnum Hn Hv Hnan) as Hc.
  destruct (clamped_cutoff _ n Hc) as (z & Hz & _ & Hint & _).
  exists (threshold (clampTarget st) (samples d k n)).
  split; [unfold handleTargetInput; apply clamped_run; assumption|].
  split; [exact Hc|]. split; [rewrite threshold_length; apply samples_length|].
  split; [|reflexivity].
  rewrite (threshold_selected_count _ (samples d k n) z); rewrite ?samples_length; auto;
    try lia.
  apply clamp_count_bounds; lia.
Qed.

Lemma handleTargetInput_selects_some_witness :
  numPoints out_of_range = num_of_nat 1000 /\
  100 <= Z.of_nat 1000 <= 10000 /\
  is_number (tempTargetValue out_of_range) = true /\
  is_NaN (tempTargetValue out_of_range) = false /\
  (10 <= 10)%nat /\
  (exists st',
    handleTargetInput 10 out_of_range demo_draws 0%nat = (Some st', (0 + 2 * 1000)%nat) /\
    clamped (clampTarget out_of_range) 1000 /\
    length (points st') = 1000%nat /\
    (1 <= selected_count (points st') <= 1000)%nat /\
    tempTargetValue st' = targetValue st').
Proof.
  split; [reflexivity|].
  split; [split; discriminate|].
  split; [reflexivity|].
  split; [reflexivity|].
  split; [apply Nat.le_refl|].
  apply (handleTargetInput_selects_some 10 out_of_range 1000 demo_draws 0%nat);
    [ reflexivity
    | split; discriminate
    | reflexivity
    | reflexivity
    | apply Nat.le_refl ].
Defined.

(** ** More about generatePoints *)






(** X7.  A [numPoints] that is not positive (zero, a negative Number, NaN)
    never enters the loop: for any [targetValue] the routine returns at
    once without reading the stream, [points] is empty and the estimate is
    the fallback [0]. *)
Theorem generatePoints_without_positive_count fuel st d k :
  js_lt (S754_zero false) (numPoints st) = false ->
  exists st',
    generatePoints fuel st d k = (Some st', k) /\
    points st' = [] /\ approximatedSqrt st' = S754_zero false /\
    actualSqrt st' = Math_sqrt (targetValue st).
Proof.
  intros Hnum. exists (threshold st []). split.
  - unfold generatePoints, bind. destruct fuel; cbn [generate_chunks]; rewrite Hnum;
      reflexivity.
  - split; [reflexivity|]. split; [|reflexivity].
    unfold threshold. cbn [approximatedSqrt Array_sort fold_right
      Array_map map_from length]. unfold max_at_or_zero. rewrite array_get_nil. reflexivity.
Qed.

Lemma generatePoints_without_positive_count_witness :
  js_lt (S754_zero false) (numPoints nan_points) = false /\
  (exists st',
    generatePoints 0 nan_points demo_draws 0%nat = (Some st', 0%nat) /\
    points st' = [] /\ approximatedSqrt st' = S754_zero false /\
    actualSqrt st' = Math_sqrt (targetValue nan_points)).
Proof.
  split; [reflexivity|].
  apply (generatePoints_without_positive_count 0 nan_points demo_draws 0%nat); reflexivity.
Defined.






Lemma threshold_point_random st raw i p :
  Forall well_formed_sample raw ->
  nth_error (points (threshold st raw)) i = Some p ->
  random_value (Point.max p) = true.
Proof.
  intros Hwf Hp. destruct (threshold_nth _ _ _ _ Hp) as (r & Hr & ->).
  cbn [select Point.max]. apply well_formed_max.
  rewrite Forall_forall in Hwf. apply Hwf.
  eapply Permutation_in; [apply (Array_sort_perm Raw.t Raw.max)|].
  eapply nth_error_In. exact Hr.
Qed.

(** The estimate read at a cut-off inside the array is the [max] of the
    point found there: for a value drawn by [Math.random] the fallback of
    [|| 0] can only replace a zero by a zero. *)
Lemma threshold_estimate_at st raw z q :
  Forall well_formed_sample raw ->
  int_valued (cutoffIndex (length raw) (targetValue st)) z -> 0 <= z < 2 ^ 53 ->
  Z.of_nat (length raw) <= 2 ^ 32 - 1 ->
  nth_error (points (threshold st raw)) (Z.to_nat z) = Some q ->
  approximatedSqrt (threshold st raw) = Point.max q.
Proof.
  intros Hwf Hint Hz Hlen Hq. rewrite (threshold_estimate st raw z Hint Hz Hlen), Hq.
  pose proof (threshold_point_random _ _ _ _ Hwf Hq) as Hr.
  destruct (random_value_range _ Hr) as (_ & _ & _ & Ht).
  destruct (truthy (Point.max q)); [reflexivity|]. symmetry. exact Ht.
Qed.

Lemma threshold_separates st raw z :
  Forall well_formed_sample raw ->
  int_valued (cutoffIndex (length raw) (targetValue st)) z -> 0 <= z < 2 ^ 53 ->
  z < Z.of_nat (length raw) -> Z.of_nat (length raw) <= 2 ^ 32 - 1 ->
  random_value (approximatedSqrt (threshold st raw)) = true /\
  forall p, In p (points (threshold st raw)) ->
    if Point.selected p then js_le (Point.max p) (approximatedSqrt (threshold st raw)) = true
    else js_le (approximatedSqrt (threshold st raw)) (Point.max p) = true.
Proof.
  intros Hwf Hint Hz Hlt Hlen.
  destruct (nth_error (points (threshold st raw)) (Z.to_nat z)) as [q|] eqn:Hq.
  2:{ apply nth_error_None in Hq. rewrite threshold_length in Hq. lia. }
  rewrite (threshold_estimate_at st raw z q Hwf Hint Hz Hlen Hq).
  split; [eapply threshold_point_random; eassumption|].
  intros p Hp. destruct (In_nth_error _ _ Hp) as (i & Hi).
  rewrite (threshold_selected st raw z i p Hint Hz ltac:(lia) Hi).
  destruct (Z.leb_spec (Z.of_nat i) z) as [Hle|Hgt].
  - apply (threshold_sorted_nth st raw i (Z.to_nat z) p q Hwf); auto. lia.
  - apply (threshold_sorted_nth st raw (Z.to_nat z) i q p Hwf); auto. lia.
Qed.

(** X9.  The estimate separates the two classes: when the cut-off lies
    inside the array, every selected point has [max <= approximatedSqrt],
    every other point has [max >= approximatedSqrt], and the estimate is
    itself a value of [0, 1). *)
Theorem estimate_separates_selected fuel st n d k z :
  clamped st n -> uniform d -> (10 <= fuel)%nat ->
  floorZ (js_mul (num_of_nat n) (targetValue st)) = Some z -> z < Z.of_nat n ->
  exists st',
    generatePoints fuel st d k = (Some st', (k + 2 * n)%nat) /\
    random_value (approximatedSqrt st') = true /\
    forall p, In p (points st') ->
      if Point.selected p then js_le (Point.max p) (approximatedSqrt st') = true
      else js_le (approximatedSqrt st') (Point.max p) = true.
Proof.
  intros Hc Hd Hfuel Hfl Hlt.
  destruct (clamped_cutoff st n Hc) as (z' & Hz & Hfl' & Hint & _).
  assert (z' = z) by congruence. subst z'.
  pose proof Hc as (_ & Hn & _).
  set (raw := samples d k n).
  assert (Hlen : length raw = n) by apply samples_length.
  assert (Hwf : Forall well_formed_sample raw) by (apply samples_well_formed, Hd).
  rewrite <- Hlen in Hint.
  exists (threshold st raw). split; [apply clamped_run; assumption|].
  apply (threshold_separates st raw z); auto; lia.
Qed.

Lemma estimate_separates_selected_witness :
  clamped (with_inputs one_half 100) 100 /\
  uniform demo_draws /\
  (10 <= 10)%nat /\
  floorZ (js_mul (num_of_nat 100) (targetValue (with_inputs one_half 100))) = Some 50 /\
  50 < Z.of_nat 100 /\
  (exists st',
    generatePoints 10 (with_inputs one_half 100) demo_draws 0%nat
    = (Some st', (0 + 2 * 100)%nat) /\
    random_value (approximatedSqrt st') = true /\
    forall p, In p (points st') ->
      if Point.selected p then js_le (Point.max p) (approximatedSqrt st') = true
      else js_le (approximatedSqrt st') (Point.max p) = true).
Proof.
  split; [exact demo_clamped|].
  split; [exact demo_draws_uniform|].
  split; [apply Nat.le_refl|].
  split; [reflexivity|].
  split; [reflexivity|].
  apply (estimate_separates_selected 10 (with_inputs one_half 100) 100 demo_draws 0%nat 50);
    [ exact demo_clamped
    | exact demo_draws_uniform
    | apply Nat.le_refl
    | reflexivity
    | reflexivity ].
Defined.

(** ** The estimate as an order statistic *)

Lemma js_mul_finite_zero s' m e s :
  js_mul (S754_finite s' m e) (S754_zero s) = S754_zero (xorb s' s).
Proof. reflexivity. Qed.

Lemma threshold_max_nth st raw i p :
  nth_error (points (threshold st raw)) i = Some p ->
  option_map Raw.max (nth_error (Array_sort by_max raw) i) = Some (Point.max p).
Proof.
  intros Hp. destruct (threshold_nth _ _ _ _ Hp) as (r & Hr & ->). rewrite Hr. reflexivity.
Qed.

(** X10.  With [targetValue = 0], of either sign, exactly one point is
    selected, the first, and the estimate is its [max]: the smallest [max]
    of all the points generated. *)
Theorem target_zero_estimates_minimum fuel st n d k s :
  clamped st n -> targetValue st = S754_zero s -> uniform d -> (10 <= fuel)%nat ->
  exists st' p0,
    generatePoints fuel st d k = (Some st', (k + 2 * n)%nat) /\
    selected_count (points st') = 1%nat /\
    hd_error (points st') = Some p0 /\ Point.selected p0 = true /\
    approximatedSqrt st' = Point.max p0 /\
    forall p, In p (points st') -> js_le (approximatedSqrt st') (Point.max p) = true.
Proof.
  intros Hc Ht Hd Hfuel. pose proof Hc as (_ & Hn & _).
  destruct (clamped_cutoff st n Hc) as (z & Hz & Hfl & Hint & _).
  assert (z = 0); [|subst z].
  { rewrite Ht in Hfl. unfold num_of_nat in Hfl. rewrite num_of_Z_pos in Hfl by lia.
    unfold int_float in Hfl. rewrite js_mul_finite_zero in Hfl. cbn [floorZ] in Hfl.
    congruence. }
  set (raw := samples d k n).
  assert (Hlen : length raw = n) by apply samples_length.
  assert (Hwf : Forall well_formed_sample raw) by (apply samples_well_formed, Hd).
  rewrite <- Hlen in Hint.
  destruct (nth_error (points (threshold st raw)) 0) as [q|] eqn:Hq.
  2:{ apply nth_error_None in Hq. rewrite threshold_length in Hq. lia. }
  exists (threshold st raw), q. split; [apply clamped_run; assumption|].
  split.
  { rewrite (threshold_selected_count st raw 0 Hint Hz ltac:(lia)).
    unfold clamp_count. lia. }
  split.
  { destruct (points (threshold st raw)); [discriminate Hq|exact Hq]. }
  split; [rewrite (threshold_selected st raw 0 0%nat q Hint Hz ltac:(lia) Hq); reflexivity|].
  rewrite (threshold_estimate_at st raw 0 q Hwf Hint Hz ltac:(lia) Hq).
  split; [reflexivity|].
  intros p Hp. destruct (In_nth_error _ _ Hp) as (i & Hi).
  apply (threshold_sorted_nth st raw 0 i q p Hwf); auto. lia.
Qed.

Lemma target_zero_estimates_minimum_witness :
  clamped (with_inputs (S754_zero true) 100) 100 /\
  targetValue (with_inputs (S754_zero true) 100) = S754_zero true /\
  uniform demo_draws /\
  (10 <= 10)%nat /\
  (exists st' p0,
    generatePoints 10 (with_inputs (S754_zero true) 100) demo_draws 0%nat
    = (Some st', (0 + 2 * 100)%nat) /\
    selected_count (points st') = 1%nat /\
    hd_error (points st') = Some p0 /\ Point.selected p0 = true /\
    approximatedSqrt st' = Point.max p0 /\
    forall p, In p (points st') -> js_le (approximatedSqrt st') (Point.max p) = true).
Proof.
  assert (Hc : clamped (with_inputs (S754_zero true) 100) 100)
    by (repeat split; try reflexivity; discriminate).
  split; [exact Hc|].
  split; [reflexivity|].
  split; [exact demo_draws_uniform|].
  split; [apply Nat.le_refl|].
  apply (target_zero_estimates_minimum 10 (with_inputs (S754_zero true) 100) 100
           demo_draws 0%nat true);
    [ exact Hc
    | reflexivity
    | exact demo_draws_uniform
    | apply Nat.le_refl ].
Defined.

(** X11.  On the same draws the estimate grows with the cut-off: of two
    targets whose cut-offs lie inside the array, the one with the larger
    cut-off gets the larger (or the same) estimate. *)
Theorem estimate_monotone_in_cutoff fuel st1 st2 n d k z1 z2 :
  clamped st1 n -> clamped st2 n -> uniform d -> (10 <= fuel)%nat ->
  floorZ (js_mul (num_of_nat n) (targetValue st1)) = Some z1 ->
  floorZ (js_mul (num_of_nat n) (targetValue st2)) = Some z2 ->
  z1 <= z2 -> z2 < Z.of_nat n ->
  exists st1' st2',
    generatePoints fuel st1 d k = (Some st1', (k + 2 * n)%nat) /\
    generatePoints fuel st2 d k = (Some st2', (k + 2 * n)%nat) /\
    js_le (approximatedSqrt st1') (approximatedSqrt st2') = true.
Proof.
  intros Hc1 Hc2 Hd Hfuel Hf1 Hf2 Hle Hlt. pose proof Hc1 as (_ & Hn & _).
  destruct (clamped_cutoff st1 n Hc1) as (z1' & Hz1 & Hf1' & Hint1 & _).
  destruct (clamped_cutoff st2 n Hc2) as (z2' & Hz2 & Hf2' & Hint2 & _).
  assert (z1' = z1) by congruence. assert (z2' = z2) by congruence. subst z1' z2'.
  set (raw := samples d k n).
  assert (Hlen : length raw = n) by apply samples_length.
  assert (Hwf : Forall well_formed_sample raw) by (apply samples_well_formed, Hd).
  rewrite <- Hlen in Hint1, Hint2.
  exists (threshold st1 raw), (threshold st2 raw).
  split; [apply clamped_run; assumption|]. split; [apply clamped_run; assumption|].
  destruct (nth_error (points (threshold st1 raw)) (Z.to_nat z1)) as [q1|] eqn:Hq1.
  2:{ apply nth_error_None in Hq1. rewrite threshold_length in Hq1. lia. }
  destruct (nth_error (points (threshold st2 raw)) (Z.to_nat z2)) as [q2|] eqn:Hq2.
  2:{ apply nth_error_None in Hq2. rewrite threshold_length in Hq2. lia. }
  rewrite (threshold_estimate_at st1 raw z1 q1 Hwf Hint1 Hz1 ltac:(lia) Hq1).
  rewrite (threshold_estimate_at st2 raw z2 q2 Hwf Hint2 Hz2 ltac:(lia) Hq2).
  pose proof (threshold_point_random _ _ _ _ Hwf Hq1) as Hr1.
  pose proof (threshold_point_random _ _ _ _ Hwf Hq2) as Hr2.
  apply threshold_max_nth in Hq1, Hq2.
  destruct (nth_error (Array_sort by_max raw) (Z.to_nat z1)) as [r1|] eqn:E1;
    [|discriminate Hq1].
  destruct (nth_error (Array_sort by_max raw) (Z.to_nat z2)) as [r2|] eqn:E2;
    [|discriminate Hq2].
  cbn [option_map] in Hq1, Hq2. injection Hq1 as Hq1. injection Hq2 as Hq2.
  assert (Hgood : Forall (fun a => nonneg_number (Raw.max a) = true) raw).
  { eapply Forall_impl; [|exact Hwf]. intros a Ha. apply well_formed_max, Ha. }
  pose proof (Array_sort_sorted Raw.t Raw.max raw Hgood) as Hsorted.
  pose proof (sorted_nth Raw.t Raw.max _ Hsorted (Z.to_nat z1) (Z.to_nat z2) r1 r2
                ltac:(lia) E1 E2) as Hkey.
  cbv beta in Hkey. rewrite Hq1, Hq2 in Hkey.
  rewrite js_le_key by (apply random_value_range; assumption).
  apply Z.leb_le. exact Hkey.
Qed.

Lemma estimate_monotone_in_cutoff_witness :
  clamped (with_inputs one_quarter 100) 100 /\
  clamped (with_inputs one_half 100) 100 /\
  uniform demo_draws /\
  (10 <= 10)%nat /\
  floorZ (js_mul (num_of_nat 100) (targetValue (with_inputs one_quarter 100))) = Some 25 /\
  floorZ (js_mul (num_of_nat 100) (targetValue (with_inputs one_half 100))) = Some 50 /\
  25 <= 50 /\
  50 < Z.of_nat 100 /\
  (exists st1' st2',
    generatePoints 10 (with_inputs one_quarter 100) demo_draws 0%nat
    = (Some st1', (0 + 2 * 100)%nat) /\
    generatePoints 10 (with_inputs one_half 100) demo_draws 0%nat
    = (Some st2', (0 + 2 * 100)%nat) /\
    js_le (approximatedSqrt st1') (approximatedSqrt st2') = true).
Proof.
  assert (Hq : clamped (with_inputs one_quarter 100) 100)
    by (repeat split; try reflexivity; discriminate).
  split; [exact Hq|].
  split; [exact demo_clamped|].
  split; [exact demo_draws_uniform|].
  split; [apply Nat.le_refl|].
  split; [reflexivity|].
  split; [reflexivity|].
  split; [discriminate|].
  split; [reflexivity|].
  apply (estimate_monotone_in_cutoff 10 (with_inputs one_quarter 100)
           (with_inputs one_half 100) 100 demo_draws 0%nat 25 50);
    [ exact Hq
    | exact demo_clamped
    | exact demo_draws_uniform
    | apply Nat.le_refl
    | reflexivity
    | reflexivity
    | discriminate
    | reflexivity ].
Defined.

(** ** The cumulative plot of updatePlot *)

Section Resorting.

Variable A : Type.
Variable mx : A -> number.

Let comparefn (a b : A) : number := js_sub (mx a) (mx b).
Let le_key (a b : A) : Prop := key (mx a) <= key (mx b).
Let good (a : A) : Prop := nonneg_number (mx a) = true.

Lemma insert_least a l :
  good a -> Forall good l -> Forall (le_key a) l -> insert comparefn a l = a :: l.
Proof.
  intros Ha Hl Hle. destruct l as [|b l]; [reflexivity|]. cbn [insert].
  inversion Hl; subst. inversion Hle; subst.
  unfold comparefn at 1. rewrite js_sub_sign by assumption.
  replace (key (mx b) <? key (mx a)) with false; [reflexivity|].
  symmetry. apply Z.ltb_ge. assumption.
Qed.

(** Sorting a sorted array leaves it as it is. *)
Lemma Array_sort_sorted_id l :
  Forall good l -> StronglySorted le_key l -> Array_sort comparefn l = l.
Proof.
  intros Hl Hs. induction Hs as [|a l Hs IH Hall]; [reflexivity|].
  inversion Hl; subst. cbn [Array_sort fold_right]. fold (Array_sort comparefn l).
  rewrite IH by assumption. apply insert_least; assumption.
Qed.

(** Sorting the keys is sorting by the keys. *)
Lemma insert_map a l :
  insert ascending (mx a) (map mx l) = map mx (insert comparefn a l).
Proof.
  induction l as [|b l IH]; [reflexivity|]. cbn [map insert].
  change (ascending (mx a) (mx b)) with (comparefn a b).
  destruct (js_lt (S754_zero false) (comparefn a b)); cbn [map]; [rewrite IH|]; reflexivity.
Qed.

Lemma Array_sort_map l :
  Array_sort ascending (map mx l) = map mx (Array_sort comparefn l).
Proof.
  induction l as [|a l IH]; [reflexivity|]. cbn [map Array_sort fold_right].
  fold (Array_sort ascending (map mx l)). fold (Array_sort comparefn l).
  rewrite IH. apply insert_map.
Qed.

End Resorting.

Lemma max_select c l : forall i,
  map Point.max (map_from (select c) i l) = map Raw.max l.
Proof.
  induction l as [|a l IH]; intros i; [reflexivity|].
  cbn [map_from map select Point.max]. rewrite IH. reflexivity.
Qed.

Lemma cdf_entry_x len l : forall i, map Cdf.x (map_from (cdf_entry len) i l) = l.
Proof.
  induction l as [|a l IH]; intros i; [reflexivity|].
  cbn [map_from map cdf_entry Cdf.x]. rewrite IH. reflexivity.
Qed.

Lemma cdfPoints_length pts : length (cdfPoints pts) = length pts.
Proof.
  unfold cdfPoints, Array_map. rewrite map_from_length.
  transitivity (length (map Point.max pts)); [|apply length_map].
  apply Permutation_length. exact (Array_sort_perm number (fun v => v) (map Point.max pts)).
Qed.

(** The points of a thresholding pass are sorted already, so the second sort
    of [updatePlot] changes nothing. *)
Lemma threshold_cdf_x st raw :
  Forall well_formed_sample raw ->
  map Cdf.x (cdfPoints (points (threshold st raw))) = map Point.max (points (threshold st raw)).
Proof.
  intros Hwf. unfold cdfPoints, Array_map at 1. rewrite cdf_entry_x.
  rewrite threshold_points. unfold Array_map. rewrite max_select.
  rewrite (Array_sort_map Raw.t Raw.max). f_equal.
  assert (Hgood : Forall (fun a => nonneg_number (Raw.max a) = true) raw).
  { eapply Forall_impl; [|exact Hwf]. intros a Ha. apply well_formed_max, Ha. }
  apply (Array_sort_sorted_id Raw.t Raw.max).
  - eapply Permutation_Forall; [symmetry; apply (Array_sort_perm Raw.t Raw.max)|exact Hgood].
  - apply (Array_sort_sorted Raw.t Raw.max). exact Hgood.
Qed.



Lemma div_eucl_mul a b : 0 < b -> Z.div_eucl (a * b) b = (a, 0).
Proof.
  intros Hb. pose proof (Z.div_mul a b ltac:(lia)) as Hq.
  pose proof (Z.mod_mul a b ltac:(lia)) as Hr.
  unfold Z.div, Z.modulo in Hq, Hr.
  destruct (Z.div_eucl (a * b) b) as [q r]. congruence.
Qed.

(** A finite Number divided by itself is exactly 1. *)
Lemma js_div_self s m e :
  js_div (S754_finite s m e) (S754_finite s m e) = num_of_Z 1.
Proof.
  unfold js_div, SFdiv, SFdiv_core_binary. cbv zeta.
  rewrite !Z.sub_diag.
  change (Z.min (fexp prec emax 0) 0) with (-53).
  change (0 - -53) with 53.
  rewrite Z.shiftl_mul_pow2 by lia.
  rewrite Z.mul_comm, div_eucl_mul by lia.
  assert (Hloc : new_location (Z.pos m) 0 = loc_Exact)
    by (unfold new_location; destruct (Z.even (Z.pos m)); reflexivity).
  rewrite Hloc.
  rewrite xorb_nilpotent.
  change (2 ^ 53) with (Z.pos 9007199254740992).
  rewrite (binary_round_aux_int false 9007199254740992 (-53) 1);
    first [reflexivity | vm_compute; discriminate].
Qed.

Lemma js_div_int_self n : 0 < n < 2 ^ 53 -> js_div (num_of_Z n) (num_of_Z n) = num_of_Z 1.
Proof. intros Hn. rewrite num_of_Z_pos by assumption. apply js_div_self. Qed.

(** X13.  The cumulative curve ends at exactly 1: the ordinate of the last
    entry of [cdfPoints] is [points.length / points.length], which no
    rounding disturbs, for any non-empty array of points. *)
Theorem cdf_ends_at_one (pts : list Point.t) :
  pts <> [] -> Z.of_nat (length pts) < 2 ^ 53 ->
  option_map Cdf.y (nth_error (cdfPoints pts) (length pts - 1)) = Some (num_of_Z 1).
Proof.
  intros Hne Hlen.
  assert (Hpos : (0 < length pts)%nat) by (destruct pts; [congruence|cbn; lia]).
  pose proof (cdfPoints_length pts) as Hl. unfold cdfPoints, Array_map in *.
  rewrite map_from_length in Hl. rewrite map_from_nth.
  destruct (nth_error (Array_sort ascending (map Point.max pts)) (length pts - 1))
    as [a|] eqn:Ha.
  2:{ apply nth_error_None in Ha. lia. }
  cbn [option_map cdf_entry Cdf.y Nat.add]. f_equal. unfold num_of_nat.
  rewrite js_add_int by lia.
  replace (Z.of_nat (length pts - 1) + 1) with (Z.of_nat (length pts)) by lia.
  apply js_div_int_self. lia.
Qed.

Lemma cdf_ends_at_one_witness :
  [Point.mk one_quarter one_half one_half true;
   Point.mk one_half one_quarter one_half false] <> [] /\
  Z.of_nat (length [Point.mk one_quarter one_half one_half true;
                    Point.mk one_half one_quarter one_half false]) < 2 ^ 53 /\
  option_map Cdf.y
    (nth_error (cdfPoints [Point.mk one_quarter one_half one_half true;
                           Point.mk one_half one_quarter one_half false])
               (length [Point.mk one_quarter one_half one_half true;
                        Point.mk one_half one_quarter one_half false] - 1))
  = Some (num_of_Z 1).
Proof.
  split; [discriminate|].
  split; [reflexivity|].
  apply (cdf_ends_at_one [Point.mk one_quarter one_half one_half true;
                          Point.mk one_half one_quarter one_half false]);
    [ discriminate | reflexivity ].
Defined.

Lemma filter_length_map {A B} (f : A -> B) (g : B -> bool) l :
  length (filter (fun a => g (f a)) l) = length (filter g (map f l)).
Proof.
  induction l as [|a l IH]; [reflexivity|]. cbn [map filter].
  destruct (g (f a)); cbn [length]; rewrite IH; reflexivity.
Qed.

Lemma filter_length_le {A} (f g : A -> bool) l :
  (forall a, In a l -> f a = true -> g a = true) ->
  (length (filter f l) <= length (filter g l))%nat.
Proof.
  induction l as [|a l IH]; intros H; [apply Nat.le_refl|]. cbn [filter].
  assert (IH' := IH (fun b Hb => H b (or_intror Hb))).
  pose proof (H a (or_introl eq_refl)) as Ha.
  destruct (f a); [rewrite Ha by reflexivity; cbn [length]; lia|].
  destruct (g a); cbn [length]; lia.
Qed.

Lemma shaded_length st raw :
  Forall well_formed_sample raw ->
  length (shaded (threshold st raw))
  = length (filter (fun p => js_le (Point.max p) (approximatedSqrt (threshold st raw)))
                   (points (threshold st raw))).
Proof.
  intros Hwf. unfold shaded.
  rewrite (filter_length_map Cdf.x (fun v => js_le v (approximatedSqrt (threshold st raw)))).
  rewrite threshold_cdf_x by assumption.
  symmetry.
  apply (filter_length_map Point.max
           (fun v => js_le v (approximatedSqrt (threshold st raw)))).
Qed.

(** X14.  The shaded part of the cumulative plot,
    [cdfPoints.filter((p) => p.x <= approximatedSqrt)], covers every
    selected point when the cut-off lies inside the array: it has at least
    as many entries as there are selected points (ties at the estimate can
    add more). *)
Theorem shaded_covers_selected fuel st n d k z :
  clamped st n -> uniform d -> (10 <= fuel)%nat ->
  floorZ (js_mul (num_of_nat n) (targetValue st)) = Some z -> z < Z.of_nat n ->
  exists st',
    generatePoints fuel st d k = (Some st', (k + 2 * n)%nat) /\
    selected_count (points st') = Z.to_nat (z + 1) /\
    (selected_count (points st') <= length (shaded st'))%nat.
Proof.
  intros Hc Hd Hfuel Hfl Hlt.
  destruct (clamped_cutoff st n Hc) as (z' & Hz & Hfl' & Hint & _).
  assert (z' = z) by congruence. subst z'.
  pose proof Hc as (_ & Hn & _).
  set (raw := samples d k n).
  assert (Hlen : length raw = n) by apply samples_length.
  assert (Hwf : Forall well_formed_sample raw) by (apply samples_well_formed, Hd).
  rewrite <- Hlen in Hint.
  exists (threshold st raw). split; [apply clamped_run; assumption|].
  split.
  - rewrite (threshold_selected_count st raw z Hint Hz ltac:(lia)).
    unfold clamp_count. lia.
  - rewrite shaded_length by assumption. unfold selected_count.
    apply filter_length_le. intros p Hp Hsel.
    destruct (threshold_separates st raw z Hwf Hint Hz ltac:(lia) ltac:(lia)) as (_ & Hsep).
    specialize (Hsep p Hp). rewrite Hsel in Hsep. exact Hsep.
Qed.

Lemma shaded_covers_selected_witness :
  clamped (with_inputs one_half 100) 100 /\
  uniform demo_draws /\
  (10 <= 10)%nat /\
  floorZ (js_mul (num_of_nat 100) (targetValue (with_inputs one_half 100))) = Some 50 /\
  50 < Z.of_nat 100 /\
  (exists st',
    generatePoints 10 (with_inputs one_half 100) demo_draws 0%nat
    = (Some st', (0 + 2 * 100)%nat) /\
    selected_count (points st') = Z.to_nat (50 + 1) /\
    (selected_count (points st') <= length (shaded st'))%nat).
Proof.
  split; [exact demo_clamped|].
  split; [exact demo_draws_uniform|].
  split; [apply Nat.le_refl|].
  split; [reflexivity|].
  split; [reflexivity|].
  apply (shaded_covers_selected 10 (with_inputs one_half 100) 100 demo_draws 0%nat 50);
    [ exact demo_clamped
    | exact demo_draws_uniform
    | apply Nat.le_refl
    | reflexivity
    | reflexivity ].
Defined.

Lemma random_value_le_zero v :
  random_value v = true -> js_le v (S754_zero false) = true -> v = S754_zero false.
Proof.
  destruct v as [[]|s| |[] m e]; intros H1 H2; try discriminate H1; try discriminate H2.
  reflexivity.
Qed.

(** X15.  At [targetValue = 1] the two plots disagree: every point is
    selected, but the estimate is the fallback [0], so the shaded part of
    the cumulative plot keeps only entries whose abscissa is exactly [0]
    (draws of [0] for both coordinates). *)
Theorem target_one_shades_zeros_only fuel st n d k :
  clamped st n -> targetValue st = num_of_Z 1 -> uniform d -> (10 <= fuel)%nat ->
  exists st',
    generatePoints fuel st d k = (Some st', (k + 2 * n)%nat) /\
    selected_count (points st') = n /\
    forall c, In c (shaded st') -> Cdf.x c = S754_zero false.
Proof.
  intros Hc Ht Hd Hfuel. pose proof Hc as (_ & Hn & _).
  set (raw := samples d k n).
  assert (Hlen : length raw = n) by apply samples_length.
  assert (Hwf : Forall well_formed_sample raw) by (apply samples_well_formed, Hd).
  assert (Hint : int_valued (cutoffIndex (length raw) (targetValue st)) (Z.of_nat n)).
  { left. rewrite Ht, Hlen. apply cutoffIndex_one. lia. }
  exists (threshold st raw). split; [apply clamped_run; assumption|].
  split.
  - rewrite (threshold_selected_count st raw (Z.of_nat n) Hint ltac:(lia) ltac:(lia)).
    unfold clamp_count. lia.
  - intros c Hin. unfold shaded in Hin. apply filter_In in Hin. destruct Hin as [Hin Hle].
    rewrite (threshold_estimate st raw (Z.of_nat n) Hint ltac:(lia) ltac:(lia)) in Hle.
    replace (nth_error (points (threshold st raw)) (Z.to_nat (Z.of_nat n))) with (@None Point.t)
      in Hle.
    2:{ symmetry. apply nth_error_None. rewrite threshold_length. lia. }
    apply random_value_le_zero; [|exact Hle].
    apply (in_map Cdf.x) in Hin. rewrite threshold_cdf_x in Hin by assumption.
    apply in_map_iff in Hin. destruct Hin as (p & <- & Hp).
    destruct (In_nth_error _ _ Hp) as (i & Hi).
    eapply threshold_point_random; eassumption.
Qed.

Lemma target_one_shades_zeros_only_witness :
  clamped (with_inputs (num_of_Z 1) 100) 100 /\
  targetValue (with_inputs (num_of_Z 1) 100) = num_of_Z 1 /\
  uniform demo_draws /\
  (10 <= 10)%nat /\
  (exists st',
    generatePoints 10 (with_inputs (num_of_Z 1) 100) demo_draws 0%nat
    = (Some st', (0 + 2 * 100)%nat) /\
    selected_count (points st') = 100%nat /\
    forall c, In c (shaded st') -> Cdf.x c = S754_zero false).
Proof.
  assert (Hc : clamped (with_inputs (num_of_Z 1) 100) 100)
    by (repeat split; try reflexivity; discriminate).
  split; [exact Hc|].
  split; [reflexivity|].
  split; [exact demo_draws_uniform|].
  split; [apply Nat.le_refl|].
  apply (target_one_shades_zeros_only 10 (with_inputs (num_of_Z 1) 100) 100 demo_draws 0%nat);
    [ exact Hc
    | reflexivity
    | exact demo_draws_uniform
    | apply Nat.le_refl ].
Defined.

(** ** The reactive statement *)

Lemma clamped_refresh st n : clamped st n -> clamped (refresh_actualSqrt st) n.
Proof. intros H. exact H. Qed.

(** X16.  One run of the reactive statement: [actualSqrt] is brought up to
    date in either case; with no points yet nothing else changes and the
    stream is not read; with points present the statement does what a call
    of [generatePoints] does, replacing them by [numPoints] new ones however
    many there were. *)
Theorem reactive_statement fuel st n d k :
  clamped st n -> (10 <= fuel)%nat -> Z.of_nat (length (points st)) < 2 ^ 53 ->
  exists st',
    reactive fuel st d k
    = (Some st', if Nat.eqb (length (points st)) 0 then k else (k + 2 * n)%nat) /\
    actualSqrt st' = Math_sqrt (targetValue st) /\
    (points st = [] -> st' = refresh_actualSqrt st) /\
    (points st <> [] ->
       generatePoints fuel st d k = (Some st', (k + 2 * n)%nat) /\ length (points st') = n).
Proof.
  intros Hc Hfuel Hlen. unfold reactive. cbv zeta.
  change (points (refresh_actualSqrt st)) with (points st).
  unfold num_of_nat at 1. rewrite num_of_Z_lt by lia.
  destruct (points st) as [|p l] eqn:Hp.
  - exists (refresh_actualSqrt st). cbn [length Nat.eqb Z.of_nat Z.ltb Z.compare].
    split; [reflexivity|]. split; [reflexivity|].
    split; [reflexivity|]. intros Hne. congruence.
  - exists (threshold st (samples d k n)).
    replace (0 <? Z.of_nat (length (p :: l))) with true
      by (symmetry; apply Z.ltb_lt; cbn [length]; lia).
    cbn [length Nat.eqb].
    rewrite (clamped_run fuel (refresh_actualSqrt st) n d k (clamped_refresh st n Hc) Hfuel).
    split; [reflexivity|]. split; [reflexivity|].
    split; [intros Hnil; discriminate Hnil|]. intros _.
    split; [apply clamped_run; assumption|].
    rewrite threshold_length. apply samples_length.
Qed.

Lemma reactive_statement_witness :
  clamped (populated one_half 100) 100 /\
  (10 <= 10)%nat /\
  Z.of_nat (length (points (populated one_half 100))) < 2 ^ 53 /\
  (exists st',
    reactive 10 (populated one_half 100) demo_draws 0%nat
    = (Some st', if Nat.eqb (length (points (populated one_half 100))) 0 then 0%nat
                 else (0 + 2 * 100)%nat) /\
    actualSqrt st' = Math_sqrt (targetValue (populated one_half 100)) /\
    (points (populated one_half 100) = [] -> st' = refresh_actualSqrt (populated one_half 100)) /\
    (points (populated one_half 100) <> [] ->
       generatePoints 10 (populated one_half 100) demo_draws 0%nat
       = (Some st', (0 + 2 * 100)%nat) /\ length (points st') = 100%nat)).
Proof.
  split; [exact demo_clamped|].
  split; [apply Nat.le_refl|].
  split; [reflexivity|].
  apply (reactive_statement 10 (populated one_half 100) 100 demo_draws 0%nat);
    [ exact demo_clamped
    | apply Nat.le_refl
    | reflexivity ].
Defined.

(** ** The single-pass variant and the page *)





